(** * beadmachine: a shallow embedding of [main.go]

    The development follows [main.go]: Go integers are [Z] with their
    wrap-around written out, [float64] values are binary64 numbers of
    Corelib's [SpecFloat] (round to nearest, ties to even), colours and
    images follow Go's [image] and [image/color] packages, and
    [beadMachine.process] is a function producing the trace of its
    observable effects.  Library calls that are not part of the repository
    ([readImageFile], [applyFilters], [imaging.Resize], [processImage],
    [os.Create]) are fields of an environment record, so that the theorems
    about [process] hold for every behaviour of them. *)

From Stdlib Require Import ZArith Lia Bool List.
From Stdlib Require Import Floats.SpecFloat.
From stdpp Require Import base gmap strings list.

Open Scope Z_scope.

(** ** Go integers *)

(** Two's-complement wrap-around of a 64-bit [int]. *)
Definition wrap64 (z : Z) : Z := (z + 2 ^ 63) mod 2 ^ 64 - 2 ^ 63.

(** The conversion [uint8(v)] of a [uint32]: the low byte. *)
Definition uint8_of (v : Z) : Z := v mod 2 ^ 8.

(** ** [float64] *)

Definition prec64 : Z := 53.
Definition emax64 : Z := 1024.

(** [float64(d)] for an [int] [d]: [d] rounded to nearest even. *)
Definition float64_of_int (d : Z) : spec_float :=
  binary_normalize prec64 emax64 d 0 false.

Definition fdiv (x y : spec_float) : spec_float := SFdiv prec64 emax64 x y.
Definition fadd (x y : spec_float) : spec_float := SFadd prec64 emax64 x y.
Definition fmul (x y : spec_float) : spec_float := SFmul prec64 emax64 x y.

(** The untyped constants of the source, as [float64]. *)
Definition f29 : spec_float := float64_of_int 29.
Definition f_half : spec_float := binary_normalize prec64 emax64 1 (-1) false.

(** [math.Floor]: finite values are rounded down to an integer, zeros,
    infinities and NaN are returned unchanged. *)
Definition math_Floor (x : spec_float) : spec_float :=
  match x with
  | S754_finite s m e =>
      if Z.leb 0 e then x
      else
        let n := Z.div (cond_Zopp s (Zpos m)) (2 ^ (- e)) in
        match n with
        | Z0 => S754_zero s
        | _ => binary_normalize prec64 emax64 n 0 s
        end
  | _ => x
  end.

(** [int(f)] for a [float64] [f]: truncation towards zero; the values Go
    leaves implementation-specific (NaN, infinities, out of range) give
    [math.MinInt64], as on amd64. *)
Definition go_int_of_float (x : spec_float) : Z :=
  match x with
  | S754_zero _ => 0
  | S754_finite s m e =>
      let v := if Z.leb 0 e then Zpos m * 2 ^ e
               else Z.quot (Zpos m) (2 ^ (- e)) in
      if Z.ltb v (2 ^ 63) then cond_Zopp s v else - 2 ^ 63
  | _ => - 2 ^ 63
  end.

(** [calculateBeadBoardsNeeded] (lines 289-293). *)
Definition calculateBeadBoardsNeeded (dimension : Z) : Z :=
  let neededFloat := fdiv (float64_of_int dimension) f29 in
  let neededFloat := math_Floor (fadd neededFloat f_half) in
  go_int_of_float neededFloat.

(** ** [image/color] *)

(** The dynamic values a [color.Color] interface holds in this program
    (the types of [image/color] the decoders and [imaging] produce). *)
Inductive go_color :=
  | RGBA (R G B A : Z)
  | NRGBA (R G B A : Z)
  | RGBA64 (R G B A : Z)
  | NRGBA64 (R G B A : Z)
  | Gray (Y : Z).

(** The [RGBA()] method: alpha-premultiplied 16-bit channels. *)
Definition color_RGBA (c : go_color) : Z * Z * Z * Z :=
  match c with
  | RGBA r g b a => (r * 257, g * 257, b * 257, a * 257)
  | NRGBA r g b a =>
      ((r * 257) * a / 255, (g * 257) * a / 255, (b * 257) * a / 255, a * 257)
  | RGBA64 r g b a => (r, g, b, a)
  | NRGBA64 r g b a => (r * a / 65535, g * a / 65535, b * a / 65535, a)
  | Gray y => (y * 257, y * 257, y * 257, 65535)
  end.

(** Go's [==] on two [color.Color] interface values: same dynamic type and
    equal fields.  It is the key equality of a [map[color.Color]T]. *)
Definition color_eqb (c1 c2 : go_color) : bool :=
  match c1, c2 with
  | RGBA r g b a, RGBA r' g' b' a'
  | NRGBA r g b a, NRGBA r' g' b' a'
  | RGBA64 r g b a, RGBA64 r' g' b' a'
  | NRGBA64 r g b a, NRGBA64 r' g' b' a' =>
      (r =? r') && (g =? g') && (b =? b') && (a =? a')
  | Gray y, Gray y' => y =? y'
  | _, _ => false
  end.

(** The struct [color.RGBA] stored by an [image.RGBA] pointer. *)
Record rgba := mkRGBA { cR : Z; cG : Z; cB : Z; cA : Z }.

Definition rgba_zero : rgba := mkRGBA 0 0 0 0.

(** ** [image] *)

Record point := mkPoint { X : Z; Y : Z }.
Record rectangle := mkRect { Min : point; Max : point }.

Definition Dx (r : rectangle) : Z := X (Max r) - X (Min r).
Definition Dy (r : rectangle) : Z := Y (Max r) - Y (Min r).

(** [image.Point{x, y}.In(r)]. *)
Definition point_in (x y : Z) (r : rectangle) : bool :=
  (X (Min r) <=? x) && (x <? X (Max r)) && (Y (Min r) <=? y) && (y <? Y (Max r)).

(** An [image.Image]: its bounds and its [At] method. *)
Record image := mkImage { Bounds : rectangle; At : Z -> Z -> go_color }.

(** An [image.RGBA] pointer: its [Rect] and the pixel stored at each point. *)
Record rgba_image := mkRGBAImage { Rect : rectangle; Pix : Z -> Z -> rgba }.

(** [image.NewRGBA(r)]: every pixel is the zero [color.RGBA]. *)
Definition NewRGBA (r : rectangle) : rgba_image := mkRGBAImage r (fun _ _ => rgba_zero).

(** [image.RGBA.SetRGBA]: a point outside [Rect] is ignored. *)
Definition SetRGBA (p : rgba_image) (x y : Z) (c : rgba) : rgba_image :=
  if point_in x y (Rect p) then
    mkRGBAImage (Rect p)
      (fun x' y' => if (x' =? x) && (y' =? y) then c else Pix p x' y')
  else p.

(** [image.RGBA.RGBAAt]: the zero colour outside [Rect]. *)
Definition RGBAAt (p : rgba_image) (x y : Z) : rgba :=
  if point_in x y (Rect p) then Pix p x y else rgba_zero.

(** ** [beadMachine] *)

Local Open Scope string_scope.
Local Open Scope list_scope.
Local Open Scope Z_scope.

(** A [map[color.Color]T]: an association list whose keys are compared
    with Go's [==] on interface values; an assignment replaces the entry of
    an equal key. *)
Definition color_map (V : Type) := list (go_color * V).

Fixpoint cmap_lookup {V} (k : go_color) (m : color_map V) : option V :=
  match m with
  | [] => None
  | (k', v) :: m' => if color_eqb k' k then Some v else cmap_lookup k m'
  end.

Definition cmap_insert {V} (k : go_color) (v : V) (m : color_map V) : color_map V :=
  (k, v) :: List.filter (fun kv => negb (color_eqb (fst kv) k)) m.

(** A [chromath.Lab] value. *)
Definition lab := (spec_float * spec_float * spec_float)%type.

(** The arguments of [chromath.NewRGBTransformer]; the package-level
    values passed by address are named by their identifiers. *)
Record rgb_transformer := mkRGBTransformer {
  rt_space : string;
  rt_adaptation : string;
  rt_illuminant : string;
  rt_scaler : string;
  rt_inScale : spec_float;
  rt_compander : option string }.

(** The argument of [chromath.NewLabTransformer]. *)
Record lab_transformer := mkLabTransformer { lt_illuminant : string }.

Record beadMachine := mkBeadMachine {
  colorMatchCache : color_map string;
  rgbLabCache : color_map lab;
  labTransformer : lab_transformer;
  rgbTransformer : rgb_transformer;
  beadFillPixel : rgba;
  inputFileName : string;
  outputFileName : string;
  htmlFileName : string;
  paletteFileName : string;
  width : Z;
  height : Z;
  boardsWidth : Z;
  boardsHeight : Z;
  boardDimension : Z;
  beadStyle : bool;
  translucent : bool;
  flourescent : bool;
  noColorMatching : bool;
  greyScale : bool;
  blur : spec_float;
  sharpen : spec_float;
  gamma : spec_float;
  contrast : spec_float;
  brightness : spec_float }.

(** The command-line flags read by [startBeadMachine]. *)
Record flags := mkFlags {
  f_input : string; f_output : string; f_html : string; f_palette : string;
  f_width : Z; f_height : Z; f_boardswidth : Z; f_boardsheight : Z;
  f_boarddimension : Z;
  f_beadstyle : bool; f_translucent : bool; f_flourescent : bool;
  f_nocolormatching : bool; f_grey : bool;
  f_blur : spec_float; f_sharpen : spec_float; f_gamma : spec_float;
  f_contrast : spec_float; f_brightness : spec_float }.

Definition f_one : spec_float := float64_of_int 1.

(** The value built by [startBeadMachine] (lines 138-171). *)
Definition newBeadMachine (f : flags) : beadMachine := {|
  colorMatchCache := [];
  rgbLabCache := [];
  labTransformer := mkLabTransformer "IlluminantRefD50";
  rgbTransformer := mkRGBTransformer "SpaceSRGB" "AdaptationBradford"
                      "IlluminantRefD50" "Scaler8bClamping" f_one None;
  beadFillPixel := mkRGBA 225 225 225 255;
  inputFileName := f_input f;
  outputFileName := f_output f;
  paletteFileName := f_palette f;
  htmlFileName := f_html f;
  boardDimension := f_boarddimension f;
  width := f_width f;
  boardsWidth := f_boardswidth f;
  height := f_height f;
  boardsHeight := f_boardsheight f;
  beadStyle := f_beadstyle f;
  noColorMatching := f_nocolormatching f;
  greyScale := f_grey f;
  translucent := f_translucent f;
  flourescent := f_flourescent f;
  blur := f_blur f;
  sharpen := f_sharpen f;
  gamma := f_gamma f;
  contrast := f_contrast f;
  brightness := f_brightness f |}.

(** The machine [m] with the board dimension set to [d]. *)
Definition with_boardDimension (m : beadMachine) (d : Z) : beadMachine := {|
  colorMatchCache := colorMatchCache m; rgbLabCache := rgbLabCache m;
  labTransformer := labTransformer m; rgbTransformer := rgbTransformer m;
  beadFillPixel := beadFillPixel m;
  inputFileName := inputFileName m; outputFileName := outputFileName m;
  htmlFileName := htmlFileName m; paletteFileName := paletteFileName m;
  width := width m; height := height m;
  boardsWidth := boardsWidth m; boardsHeight := boardsHeight m;
  boardDimension := d;
  beadStyle := beadStyle m; translucent := translucent m; flourescent := flourescent m;
  noColorMatching := noColorMatching m; greyScale := greyScale m;
  blur := blur m; sharpen := sharpen m; gamma := gamma m;
  contrast := contrast m; brightness := brightness m |}.

(** ** [beadMachine.process] *)

(** A value logged through [zap]. *)
Inductive log_value :=
  | LInt (z : Z)
  | LFloat (f : spec_float)
  | LDuration (d : Z).

(** The observable effects of [process]. *)
Inductive effect :=
  | LogInfo (msg : string) (fields : list (string * log_value))
  | LogError (msg : string) (err : string)
  | CreateFile (name : string)
  | EncodePNG (name : string) (img : rgba_image)
  | CloseFile (name : string).

(** The settings [applyFilters] (not in [main.go]) reads. *)
Record filter_settings := mkFilterSettings {
  fs_greyScale : bool;
  fs_blur : spec_float;
  fs_sharpen : spec_float;
  fs_gamma : spec_float;
  fs_contrast : spec_float;
  fs_brightness : spec_float }.

Definition filterSettings (m : beadMachine) : filter_settings :=
  mkFilterSettings (greyScale m) (blur m) (sharpen m) (gamma m) (contrast m) (brightness m).

(** The calls [process] makes to code outside [main.go].

    [processImage] is not in [main.go]; it is modelled from the spec
    (section 4.4): it writes the matched colours into the output buffer
    with [SetRGBA] (the list of writes) and returns an error or [nil]. *)
Record env := mkEnv {
  readImageFile : string -> image + string;
  applyFilters : filter_settings -> image -> image;
  imaging_Resize : image -> Z -> Z -> image;
  processImage : beadMachine -> rectangle -> image -> rgba_image -> string ->
                 list (Z * Z * rgba) * option string;
  elapsedTime : Z;
  os_Create : string -> option string }.

(** The writes of [processImage], applied to the shared output buffer. *)
Fixpoint applyWrites (p : rgba_image) (ws : list (Z * Z * rgba)) : rgba_image :=
  match ws with
  | [] => p
  | (x, y, c) :: ws' => applyWrites (SetRGBA p x y c) ws'
  end.

(** Lines 229-232: the pixel written when colour matching is skipped. *)
Definition noMatchPixel (c : go_color) : rgba :=
  let '(r, g, b, _) := color_RGBA c in
  mkRGBA (uint8_of r) (uint8_of g) (uint8_of b) 255.

(** The inner loop of lines 228-233, from [x] for [n] iterations. *)
Fixpoint copyRow (img : image) (y x : Z) (n : nat) (out : rgba_image) : rgba_image :=
  match n with
  | O => out
  | S n' => copyRow img y (x + 1) n' (SetRGBA out x y (noMatchPixel (At img x y)))
  end.

(** The outer loop of lines 227-234, from [y] for [n] iterations. *)
Fixpoint copyRows (img : image) (b : rectangle) (y : Z) (n : nat) (out : rgba_image) : rgba_image :=
  match n with
  | O => out
  | S n' => copyRows img b (y + 1) n' (copyRow img y (X (Min b)) (Z.to_nat (Dx b)) out)
  end.

Definition copyPixels (b : rectangle) (img : image) (out : rgba_image) : rgba_image :=
  copyRows img b (Y (Min b)) (Z.to_nat (Dy b)) out.

(** Lines 189-198: the requested size; boards override pixels. *)
Definition newWidth (m : beadMachine) : Z :=
  if 0 <? boardsWidth m then wrap64 (boardsWidth m * boardDimension m) else width m.

Definition newHeight (m : beadMachine) : Z :=
  if 0 <? boardsHeight m then wrap64 (boardsHeight m * boardDimension m) else height m.

(** Line 200: whether the image is resized. *)
Definition resized (m : beadMachine) : bool := (0 <? newWidth m) || (0 <? newHeight m).

(** Lines 187-204: the image after the filters and the resizing. *)
Definition resizedImage (ev : env) (m : beadMachine) (inputImage0 : image) : image :=
  let inputImage1 := applyFilters ev (filterSettings m) inputImage0 in
  if resized m then imaging_Resize ev inputImage1 (newWidth m) (newHeight m)
  else inputImage1.

(** [imageBounds] after line 204: the bounds of the resized image, or the
    bounds read at line 182 when no resizing took place. *)
Definition imageBoundsOf (ev : env) (m : beadMachine) (inputImage0 : image) : rectangle :=
  if resized m then Bounds (resizedImage ev m inputImage0) else Bounds inputImage0.

(** Lines 213-217: the bounds of the output image. *)
Definition beadModeImageBounds (m : beadMachine) (b : rectangle) : rectangle :=
  if beadStyle m then
    mkRect (Min b) (mkPoint (wrap64 (X (Max b) * 8)) (wrap64 (Y (Max b) * 8)))
  else b.

(** Line 237: the call of [processImage] on the output buffer allocated
    at line 218. *)
Definition processImageCall (ev : env) (m : beadMachine) (inputImage0 : image) :
    list (Z * Z * rgba) * option string :=
  let imageBounds := imageBoundsOf ev m inputImage0 in
  processImage ev m imageBounds (resizedImage ev m inputImage0)
    (NewRGBA (beadModeImageBounds m imageBounds)) (paletteFileName m).

(** Lines 245-252. *)
Definition writeOutput (ev : env) (m : beadMachine) (out : rgba_image) : list effect :=
  match os_Create ev (outputFileName m) with
  | Some err => [LogError "Opening output image file failed" err]
  | None => [CreateFile (outputFileName m); EncodePNG (outputFileName m) out;
             CloseFile (outputFileName m)]
  end.

(** [beadMachine.process] (lines 175-253). *)
Definition process (ev : env) (m : beadMachine) : list effect :=
  match readImageFile ev (inputFileName m) with
  | inr err => [LogError "Reading image file failed" err]
  | inl inputImage0 =>
    let imageBounds0 := Bounds inputImage0 in
    let l1 := LogInfo "Image pixels"
                [("width", LInt (Dx imageBounds0)); ("height", LInt (Dy imageBounds0))] in
    let inputImage := resizedImage ev m inputImage0 in
    let imageBounds := imageBoundsOf ev m inputImage0 in
    let resized := resized m in
    let l2 := LogInfo "Bead board used"
                [("width", LInt (calculateBeadBoardsNeeded (Dx imageBounds)));
                 ("height", LInt (calculateBeadBoardsNeeded (Dy imageBounds)))] in
    let l3 := LogInfo "Bead board measurement in cm"
                [("width", LFloat (fmul (float64_of_int (Dx imageBounds)) f_half));
                 ("height", LFloat (fmul (float64_of_int (Dy imageBounds)) f_half))] in
    let outputImage := NewRGBA (beadModeImageBounds m imageBounds) in
    let l4 := if resized || beadStyle m
              then [LogInfo "Output image pixels"
                      [("width", LInt (Dx imageBounds)); ("height", LInt (Dy imageBounds))]]
              else [] in
    let pre := [l1; l2; l3] ++ l4 in
    if noColorMatching m then
      pre ++ writeOutput ev m (copyPixels imageBounds inputImage outputImage)
    else
      let '(ws, res) := processImageCall ev m inputImage0 in
      match res with
      | Some err => pre ++ [LogError "Processing image failed" err]
      | None => pre ++ [LogInfo "Image processed" [("duration", LDuration (elapsedTime ev))]]
                    ++ writeOutput ev m (applyWrites outputImage ws)
      end
  end.

(** The image [png.Encode] writes, if any. *)
Fixpoint encoded_image (tr : list effect) : option rgba_image :=
  match tr with
  | [] => None
  | EncodePNG _ img :: _ => Some img
  | _ :: tr' => encoded_image tr'
  end.

(** Whether the trace creates a file. *)
Definition creates_file (tr : list effect) : bool :=
  existsb (fun e => match e with CreateFile _ => true | _ => false end) tr.

(** The numbers of boards logged as "Bead board used". *)
Fixpoint boards_reported (tr : list effect) : option (log_value * log_value) :=
  match tr with
  | [] => None
  | LogInfo "Bead board used" [(_, w); (_, h)] :: _ => Some (w, h)
  | _ :: tr' => boards_reported tr'
  end.

(** ** Concrete environments *)

Definition rect (x0 y0 x1 y1 : Z) : rectangle := mkRect (mkPoint x0 y0) (mkPoint x1 y1).

(** A one-pixel image of colour [c] with bounds [(x0,y0)-(x0+1,y0+1)]. *)
Definition pixelImage (x0 y0 : Z) (c : go_color) : image := mkImage (rect x0 y0 (x0 + 1) (y0 + 1)) (fun _ _ => c).

(** [imaging.Resize] for positive sizes: an image anchored at the origin. *)
Definition resizeTo (img : image) (w h : Z) : image :=
  mkImage (rect 0 0 w h) (fun x y => At img (x * Dx (Bounds img) / w) (y * Dy (Bounds img) / h)).

(** An environment where reading yields [img], filters change nothing,
    [processImage] writes nothing and succeeds, and the output file opens. *)
Definition envOf (img : image) : env := {|
  readImageFile := fun _ => inl img;
  applyFilters := fun _ i => i;
  imaging_Resize := resizeTo;
  processImage := fun _ _ _ _ _ => ([], None);
  elapsedTime := 0;
  os_Create := fun _ => None |}.

(** The flags of a run with the given bead-style, no-matching and board
    options and every other option at its default. *)
Definition runFlags (beadstyle nocolormatching : bool) (boardswidth boardsheight boarddimension : Z) : flags := {|
  f_input := "in.png"; f_output := "out.png"; f_html := ""; f_palette := "colors_hama.json";
  f_width := 0; f_height := 0; f_boardswidth := boardswidth; f_boardsheight := boardsheight;
  f_boarddimension := boarddimension;
  f_beadstyle := beadstyle; f_translucent := false; f_flourescent := false;
  f_nocolormatching := nocolormatching; f_grey := false;
  f_blur := S754_zero false; f_sharpen := S754_zero false; f_gamma := S754_zero false;
  f_contrast := S754_zero false; f_brightness := S754_zero false |}.

(** ** [calculateBeadUsage] *)

(** [colorUsageCounts[beadName]++] on a [map[string]int]: a missing key
    reads as [0]. *)
Definition incrUsage (t : gmap string Z) (beadName : string) : gmap string Z :=
  <[beadName := wrap64 (default 0 (t !! beadName) + 1)]> t.

(** The table after the loop of lines 277-279 consumed [names]. *)
Definition countUsage (names : list string) : gmap string Z :=
  foldl incrUsage ∅ names.

(** Where [calculateBeadUsage] is in its body. *)
Inductive usage_pc :=
  | UsageLoop                                   (* line 277 *)
  | UsageReportCount                            (* line 281 *)
  | UsageReportEach (rest : list (string * Z))  (* lines 282-284 *)
  | UsageSendDone                               (* line 285 *)
  | UsageFinished.

(** The aggregator and the channel [beadUsageChan] it reads. *)
Record usage_state := mkUsageState {
  u_pc : usage_pc;
  u_counts : gmap string Z;
  u_buf : list string;
  u_closed : bool }.

(** Send and close are the producers' actions on the channel; the other
    events are the aggregator's. *)
Inductive usage_event :=
  | EvSend (name : string)
  | EvClose
  | EvRecv (name : string)
  | EvRangeEnd
  | EvReportCount (n : Z)
  | EvReportUsage (name : string) (count : Z)
  | EvDone.

Inductive usage_step : usage_state -> usage_event -> usage_state -> Prop :=
  | StepSend pc t buf x :
      usage_step (mkUsageState pc t buf false) (EvSend x)
                 (mkUsageState pc t (buf ++ [x]) false)
  | StepClose pc t buf :
      usage_step (mkUsageState pc t buf false) EvClose (mkUsageState pc t buf true)
  | StepRecv t x buf c :
      usage_step (mkUsageState UsageLoop t (x :: buf) c) (EvRecv x)
                 (mkUsageState UsageLoop (incrUsage t x) buf c)
  | StepRangeEnd t :
      usage_step (mkUsageState UsageLoop t [] true) EvRangeEnd
                 (mkUsageState UsageReportCount t [] true)
  (* Go ranges over a map in an unspecified order. *)
  | StepReportCount t buf c l :
      l ≡ₚ map_to_list t ->
      usage_step (mkUsageState UsageReportCount t buf c) (EvReportCount (Z.of_nat (size t)))
                 (mkUsageState (UsageReportEach l) t buf c)
  | StepReportUsage t buf c k v l :
      usage_step (mkUsageState (UsageReportEach ((k, v) :: l)) t buf c) (EvReportUsage k v)
                 (mkUsageState (UsageReportEach l) t buf c)
  | StepReportEnd t buf c :
      usage_step (mkUsageState (UsageReportEach []) t buf c) EvRangeEnd
                 (mkUsageState UsageSendDone t buf c)
  | StepDone t buf c :
      usage_step (mkUsageState UsageSendDone t buf c) EvDone
                 (mkUsageState UsageFinished t buf c).

(** The state when [calculateBeadUsage] starts on a fresh channel. *)
Definition usage_init : usage_state := mkUsageState UsageLoop ∅ [] false.

(** Runs of the system, with the events in order. *)
Inductive usage_run (s : usage_state) : list usage_event -> usage_state -> Prop :=
  | RunNil : usage_run s [] s
  | RunStep tr s' e s'' :
      usage_run s tr s' -> usage_step s' e s'' -> usage_run s (tr ++ [e]) s''.

(** The names sent and received along a trace. *)
Definition sends_of (tr : list usage_event) : list string :=
  omap (fun e => match e with EvSend x => Some x | _ => None end) tr.
Definition recvs_of (tr : list usage_event) : list string :=
  omap (fun e => match e with EvRecv x => Some x | _ => None end) tr.

Definition is_report (e : usage_event) : bool :=
  match e with EvReportCount _ | EvReportUsage _ _ => true | _ => false end.

(** ** The colour caches *)

Section ColorSpace.

(** The conversions of [go-chromath]: [RGBTransformer.Convert] to XYZ and
    [LabTransformer.Invert] from XYZ. *)
Variable rgb_convert : rgb_transformer -> Z * Z * Z -> spec_float * spec_float * spec_float.
Variable lab_invert : lab_transformer -> spec_float * spec_float * spec_float -> lab.

(** Modelled from the spec (section 4.1; the matching code is not in
    [main.go]): the Lab value of an RGB triple is the machine's RGB
    transformer followed by its Lab transformer. *)
Definition toLab (m : beadMachine) (rgb : Z * Z * Z) : lab :=
  lab_invert (labTransformer m) (rgb_convert (rgbTransformer m) rgb).

End ColorSpace.

(** ** [startBeadMachine] *)



(** ** Reading traces *)

(** The fields of the first [Info] entry logged with message [msg]. *)
Fixpoint info_fields (msg : string) (tr : list effect) : option (list (string * log_value)) :=
  match tr with
  | [] => None
  | LogInfo msg' fields :: tr' => if String.eqb msg' msg then Some fields else info_fields msg tr'
  | _ :: tr' => info_fields msg tr'
  end.

(** The number of [png.Encode] calls in a trace. *)
Definition encode_count (tr : list effect) : nat :=
  length (List.filter (fun e => match e with EncodePNG _ _ => true | _ => false end) tr).

(** The environment [ev] with other [processImage] and timer. *)
Definition with_processImage (ev : env) p t : env := {|
  readImageFile := readImageFile ev; applyFilters := applyFilters ev;
  imaging_Resize := imaging_Resize ev; processImage := p; elapsedTime := t;
  os_Create := os_Create ev |}.


(** The sum of the counts of a usage table. *)
Definition usage_total (t : gmap string Z) : Z := map_fold (fun _ v acc => v + acc) 0 t.

(** The value of a [float64] in units of [2^-60], when it is a finite
    multiple of that unit. *)
Definition float_units60 (f : spec_float) : option Z :=
  match f with
  | S754_zero _ => Some 0
  | S754_finite s m e => if -60 <=? e then Some (cond_Zopp s (Zpos m * 2 ^ (e + 60))) else None
  | _ => None
  end.

(** * Properties *)

(** ** Images *)

Lemma Rect_SetRGBA (p : rgba_image) x y c : Rect (SetRGBA p x y c) = Rect p.
Proof. unfold SetRGBA. by destruct (point_in x y (Rect p)). Qed.

Lemma Pix_SetRGBA_other (p : rgba_image) x y c x' y' :
  x' <> x \/ y' <> y -> Pix (SetRGBA p x y c) x' y' = Pix p x' y'.
Proof.
  intros Hne. unfold SetRGBA. destruct (point_in x y (Rect p)); [|done]. simpl.
  destruct (Z.eqb_spec x' x), (Z.eqb_spec y' y); simpl; auto; lia.
Qed.

Lemma Rect_copyRow img y x n out : Rect (copyRow img y x n out) = Rect out.
Proof.
  revert x out. induction n as [|n IH]; intros x out; simpl; [done|].
  by rewrite IH, Rect_SetRGBA.
Qed.

Lemma Rect_copyRows img b y n out : Rect (copyRows img b y n out) = Rect out.
Proof.
  revert y out. induction n as [|n IH]; intros y out; simpl; [done|].
  by rewrite IH, Rect_copyRow.
Qed.

Lemma Rect_copyPixels b img out : Rect (copyPixels b img out) = Rect out.
Proof. apply Rect_copyRows. Qed.

(** The inner loop writes only on row [y], at [x .. x+n-1]. *)
Lemma Pix_copyRow_other img y x n out x' y' :
  y' <> y \/ x' < x \/ x + Z.of_nat n <= x' ->
  Pix (copyRow img y x n out) x' y' = Pix out x' y'.
Proof.
  revert x out. induction n as [|n IH]; intros x out Hout; simpl; [done|].
  rewrite IH by lia. apply Pix_SetRGBA_other. lia.
Qed.

(** The outer loop writes only on rows [y .. y+n-1], at the columns of [b]. *)
Lemma Pix_copyRows_other img b y n out x' y' :
  y' < y \/ y + Z.of_nat n <= y' \/ x' < X (Min b) \/ X (Min b) + Z.of_nat (Z.to_nat (Dx b)) <= x' ->
  Pix (copyRows img b y n out) x' y' = Pix out x' y'.
Proof.
  revert y out. induction n as [|n IH]; intros y out Hout; simpl; [done|].
  rewrite IH by lia. apply Pix_copyRow_other. lia.
Qed.

Lemma Pix_copyPixels_outside b img out x y :
  point_in x y b = false -> Pix (copyPixels b img out) x y = Pix out x y.
Proof.
  intros Hin. unfold copyPixels. apply Pix_copyRows_other.
  unfold point_in, Dx, Dy in *.
  destruct (Z.leb_spec (X (Min b)) x), (Z.ltb_spec x (X (Max b))),
           (Z.leb_spec (Y (Min b)) y), (Z.ltb_spec y (Y (Max b))); simpl in Hin;
    try discriminate; lia.
Qed.

(** The loop writes [noMatchPixel] of the source at every point of [b]. *)
Lemma Pix_copyRow_at img y x n out x' :
  point_in x' y (Rect out) = true -> x <= x' < x + Z.of_nat n ->
  Pix (copyRow img y x n out) x' y = noMatchPixel (At img x' y).
Proof.
  revert x out. induction n as [|n IH]; intros x out Hin Hx; simpl; [lia|].
  destruct (Z.eq_dec x' x) as [->|Hne].
  - rewrite Pix_copyRow_other by lia. unfold SetRGBA. rewrite Hin. simpl.
    by rewrite !Z.eqb_refl.
  - apply IH; [by rewrite Rect_SetRGBA | lia].
Qed.

Lemma Pix_copyRows_at img b y n out x' y' :
  point_in x' y' (Rect out) = true -> y <= y' < y + Z.of_nat n ->
  X (Min b) <= x' < X (Max b) ->
  Pix (copyRows img b y n out) x' y' = noMatchPixel (At img x' y').
Proof.
  revert y out. induction n as [|n IH]; intros y out Hin Hy Hx; simpl; [lia|].
  destruct (Z.eq_dec y' y) as [->|Hne].
  - rewrite Pix_copyRows_other by lia. apply Pix_copyRow_at; [done|].
    unfold Dx. lia.
  - apply IH; [by rewrite Rect_copyRow | lia | lia].
Qed.

(** ** The output of [process] *)

Lemma Rect_applyWrites p ws : Rect (applyWrites p ws) = Rect p.
Proof.
  revert p. induction ws as [|[[x y] c] ws IH]; intros p; simpl; [done|].
  by rewrite IH, Rect_SetRGBA.
Qed.

Lemma encoded_image_app l1 l2 :
  encoded_image (l1 ++ l2) =
  match encoded_image l1 with Some i => Some i | None => encoded_image l2 end.
Proof. induction l1 as [|[] l1 IH]; simpl; auto. Qed.

Lemma creates_file_app l1 l2 : creates_file (l1 ++ l2) = creates_file l1 || creates_file l2.
Proof. unfold creates_file. apply existsb_app. Qed.

Lemma encoded_image_writeOutput ev m out :
  encoded_image (writeOutput ev m out) =
  match os_Create ev (outputFileName m) with None => Some out | Some _ => None end.
Proof. unfold writeOutput. by destruct (os_Create ev (outputFileName m)). Qed.

(** Every image [process] encodes is the output buffer allocated at line
    218 after the pixel pass. *)
Lemma encoded_image_process ev m out :
  encoded_image (process ev m) = Some out ->
  exists img0, readImageFile ev (inputFileName m) = inl img0 /\
    let b := imageBoundsOf ev m img0 in
    Rect out = beadModeImageBounds m b /\
    (noColorMatching m = true ->
     out = copyPixels b (resizedImage ev m img0) (NewRGBA (beadModeImageBounds m b))).
Proof.
  unfold process. destruct (readImageFile ev (inputFileName m)) as [img0|err];
    [|discriminate].
  intros Henc. exists img0. split; [done|].
  destruct (noColorMatching m).
  - destruct (resized m || beadStyle m); simpl in Henc;
      rewrite encoded_image_writeOutput in Henc;
      destruct (os_Create ev (outputFileName m)); inversion Henc; subst;
      split; auto; by rewrite Rect_copyPixels.
  - destruct (processImageCall ev m img0) as [ws [err|]];
      destruct (resized m || beadStyle m); simpl in Henc; try discriminate;
      rewrite encoded_image_writeOutput in Henc;
      destruct (os_Create ev (outputFileName m)); inversion Henc; subst;
      (split; [by rewrite Rect_applyWrites | discriminate]).
Qed.

Lemma RGBAAt_copyPixels_outside b img r x y :
  point_in x y b = false -> RGBAAt (copyPixels b img (NewRGBA r)) x y = rgba_zero.
Proof.
  intros Hout. unfold RGBAAt. rewrite Pix_copyPixels_outside by done.
  by case_match.
Qed.

(** C9: with [noColorMatching] and [beadStyle] the output image has the
    bounds of the input with [Max] scaled by 8, and every pixel outside the
    input bounds keeps the zero value (transparent black). *)
Theorem noColorMatching_beadStyle_output (ev : env) (m : beadMachine) (img0 : image) (out : rgba_image) :
  noColorMatching m = true -> beadStyle m = true ->
  readImageFile ev (inputFileName m) = inl img0 ->
  encoded_image (process ev m) = Some out ->
  let b := imageBoundsOf ev m img0 in
  Rect out = mkRect (Min b) (mkPoint (wrap64 (X (Max b) * 8)) (wrap64 (Y (Max b) * 8))) /\
  forall x y, point_in x y b = false -> RGBAAt out x y = rgba_zero.
Proof.
  intros Hnc Hbs Hread Henc b.
  destruct (encoded_image_process ev m out Henc) as (img1 & Hread' & Hrect & Hout).
  rewrite Hread in Hread'. injection Hread' as <-.
  split.
  - rewrite Hrect. unfold beadModeImageBounds. by rewrite Hbs.
  - intros x y Hxy. rewrite (Hout Hnc). by apply RGBAAt_copyPixels_outside.
Qed.

Lemma noColorMatching_beadStyle_output_witness :
  let img := pixelImage 0 0 (RGBA 10 20 30 255) in
  let m := newBeadMachine (runFlags true true 0 0 20) in
  let out := copyPixels (rect 0 0 1 1) img (NewRGBA (rect 0 0 8 8)) in
  (noColorMatching m = true /\ beadStyle m = true /\
   readImageFile (envOf img) (inputFileName m) = inl img /\
   encoded_image (process (envOf img) m) = Some out) /\
  (Rect out = mkRect (mkPoint 0 0) (mkPoint 8 8) /\
   forall x y, point_in x y (rect 0 0 1 1) = false -> RGBAAt out x y = rgba_zero).
Proof.
  intros img m out.
  assert (H : noColorMatching m = true /\ beadStyle m = true /\
              readImageFile (envOf img) (inputFileName m) = inl img /\
              encoded_image (process (envOf img) m) = Some out)
    by (split; [reflexivity|split; [reflexivity|split; reflexivity]]).
  split; [exact H|].
  destruct H as (H1 & H2 & H3 & H4).
  exact (noColorMatching_beadStyle_output (envOf img) m img out H1 H2 H3 H4).
Defined.

(** C1: with [noColorMatching], a pixel of a non-opaque [color.NRGBA]
    source, as a PNG with an alpha channel decodes to, is not copied: the
    output red channel is the low byte of the premultiplied 16-bit value
    [100 * 257 * 200 / 255 = 0x4EBC], i.e. 188, not the source's 100. *)
Theorem noColorMatching_nrgba_pixel :
  let img := pixelImage 0 0 (NRGBA 100 0 0 200) in
  let m := newBeadMachine (runFlags false true 0 0 20) in
  noColorMatching m = true /\
  option_map (fun p => RGBAAt p 0 0) (encoded_image (process (envOf img) m)) =
    Some (mkRGBA 188 0 0 255).
Proof. split; reflexivity. Qed.

(** C6: a one-pixel input whose bounds do not start at the origin gives a
    bead-style output of 29 x 29 pixels, not 8 x 8. *)
Lemma beadStyle_offset_bounds_counterexample :
  let img := pixelImage 3 3 (RGBA 1 2 3 255) in
  let m := newBeadMachine (runFlags true false 0 0 20) in
  Dx (Bounds img) = 1 /\ Dy (Bounds img) = 1 /\
  option_map (fun p => (Dx (Rect p), Dy (Rect p))) (encoded_image (process (envOf img) m)) =
    Some (29, 29).
Proof. split; [|split]; reflexivity. Qed.

Lemma wrap64_small z : - 2 ^ 63 <= z < 2 ^ 63 -> wrap64 z = z.
Proof.
  intros Hz. unfold wrap64. rewrite Z.mod_small; lia.
Qed.

(** C6 (amended): the output image keeps [Min] of the input bounds and,
    in bead-style mode, has [Max] multiplied by the literal 8; for input
    bounds at the origin this is 8 times the width and the height. *)
Theorem process_output_bounds (ev : env) (m : beadMachine) (img0 : image) (out : rgba_image) :
  readImageFile ev (inputFileName m) = inl img0 ->
  encoded_image (process ev m) = Some out ->
  let b := imageBoundsOf ev m img0 in
  Rect out = (if beadStyle m
              then mkRect (Min b) (mkPoint (wrap64 (X (Max b) * 8)) (wrap64 (Y (Max b) * 8)))
              else b) /\
  (beadStyle m = true -> Min b = mkPoint 0 0 ->
   0 <= X (Max b) < 2 ^ 60 -> 0 <= Y (Max b) < 2 ^ 60 ->
   Dx (Rect out) = 8 * Dx b /\ Dy (Rect out) = 8 * Dy b).
Proof.
  intros Hread Henc b.
  destruct (encoded_image_process ev m out Henc) as (img1 & Hread' & Hrect & _).
  rewrite Hread in Hread'. injection Hread' as <-.
  fold b in Hrect. rewrite Hrect. unfold beadModeImageBounds.
  split; [done|].
  intros Hbs Hmin Hx Hy. rewrite Hbs. unfold Dx, Dy. simpl. rewrite Hmin. simpl.
  rewrite !wrap64_small by lia. lia.
Qed.

Lemma process_output_bounds_witness :
  let img := pixelImage 0 0 (RGBA 1 2 3 255) in
  let m := newBeadMachine (runFlags true true 0 0 20) in
  let out := copyPixels (rect 0 0 1 1) img (NewRGBA (rect 0 0 8 8)) in
  (readImageFile (envOf img) (inputFileName m) = inl img /\
   encoded_image (process (envOf img) m) = Some out) /\
  Rect out = mkRect (mkPoint 0 0) (mkPoint 8 8).
Proof.
  intros img m out.
  assert (H : readImageFile (envOf img) (inputFileName m) = inl img /\
              encoded_image (process (envOf img) m) = Some out)
    by (split; reflexivity).
  split; [exact H|].
  destruct H as [H1 H2].
  exact (proj1 (process_output_bounds (envOf img) m img out H1 H2)).
Defined.

(** C7: a failed read ends [process] at once; a failed [processImage] call
    ends it before the output file is created, so nothing is encoded. *)
Theorem process_failure_no_output (ev : env) (m : beadMachine) :
  (forall err, readImageFile ev (inputFileName m) = inr err ->
     process ev m = [LogError "Reading image file failed" err]) /\
  (forall img0 ws err,
     readImageFile ev (inputFileName m) = inl img0 ->
     noColorMatching m = false ->
     processImageCall ev m img0 = (ws, Some err) ->
     creates_file (process ev m) = false /\ encoded_image (process ev m) = None /\
     last (process ev m) = Some (LogError "Processing image failed" err)).
Proof.
  split.
  - intros err Hread. unfold process. by rewrite Hread.
  - intros img0 ws err Hread Hnc Hcall. unfold process.
    rewrite Hread, Hnc, Hcall.
    destruct (resized m || beadStyle m); simpl; auto.
Qed.

Lemma process_failure_no_output_witness :
  let img := pixelImage 0 0 (RGBA 1 2 3 255) in
  let ev := {| readImageFile := fun _ => inl img; applyFilters := fun _ i => i;
               imaging_Resize := resizeTo;
               processImage := fun _ _ _ _ _ => ([], Some "palette");
               elapsedTime := 0; os_Create := fun _ => None |} in
  let m := newBeadMachine (runFlags false false 0 0 20) in
  (readImageFile ev (inputFileName m) = inl img /\ noColorMatching m = false /\
   processImageCall ev m img = ([], Some "palette")) /\
  creates_file (process ev m) = false.
Proof.
  intros img ev m.
  assert (H : readImageFile ev (inputFileName m) = inl img /\ noColorMatching m = false /\
              processImageCall ev m img = ([], Some "palette"))
    by (split; [|split]; reflexivity).
  split; [exact H|].
  destruct H as (H1 & H2 & H3).
  exact (proj1 (proj2 (process_failure_no_output ev m) img [] "palette" H1 H2 H3)).
Defined.

(** ** The boards logged by [process] *)

(** C10: with one board per axis, a board dimension of 20 logs one board
    per axis and a board dimension of 58 logs two. *)
Lemma boardDimension_changes_boards_counterexample :
  let img := pixelImage 0 0 (RGBA 1 2 3 255) in
  boards_reported (process (envOf img) (newBeadMachine (runFlags false false 1 1 20))) =
    Some (LInt 1, LInt 1) /\
  boards_reported (process (envOf img) (newBeadMachine (runFlags false false 1 1 58))) =
    Some (LInt 2, LInt 2).
Proof. split; reflexivity. Qed.

Lemma imageBoundsOf_with_boardDimension ev m img0 d :
  boardsWidth m <= 0 -> boardsHeight m <= 0 ->
  imageBoundsOf ev (with_boardDimension m d) img0 = imageBoundsOf ev m img0.
Proof.
  intros Hw Hh.
  assert (Hnw : newWidth (with_boardDimension m d) = newWidth m).
  { unfold newWidth. simpl. destruct (Z.ltb_spec 0 (boardsWidth m)); [lia|done]. }
  assert (Hnh : newHeight (with_boardDimension m d) = newHeight m).
  { unfold newHeight. simpl. destruct (Z.ltb_spec 0 (boardsHeight m)); [lia|done]. }
  unfold imageBoundsOf, resizedImage, resized. by rewrite Hnw, Hnh.
Qed.

(** C10 (amended): the logged numbers of boards are
    [calculateBeadBoardsNeeded] of the final width and height; the board
    dimension enters them only through the resizing, so it has no effect
    when no number of boards is requested. *)
Theorem boards_reported_spec (ev : env) (m : beadMachine) (img0 : image) :
  readImageFile ev (inputFileName m) = inl img0 ->
  boards_reported (process ev m) =
    Some (LInt (calculateBeadBoardsNeeded (Dx (imageBoundsOf ev m img0))),
          LInt (calculateBeadBoardsNeeded (Dy (imageBoundsOf ev m img0)))) /\
  (boardsWidth m <= 0 -> boardsHeight m <= 0 -> forall d,
     boards_reported (process ev (with_boardDimension m d)) = boards_reported (process ev m)).
Proof.
  assert (Hlog : forall m' img', readImageFile ev (inputFileName m') = inl img' ->
    boards_reported (process ev m') =
      Some (LInt (calculateBeadBoardsNeeded (Dx (imageBoundsOf ev m' img'))),
            LInt (calculateBeadBoardsNeeded (Dy (imageBoundsOf ev m' img'))))).
  { intros m' img' Hread. unfold process. rewrite Hread.
    destruct (noColorMatching m'); [|destruct (processImageCall ev m' img') as [ws [e|]]];
      reflexivity. }
  intros Hread. split; [by apply Hlog|].
  intros Hw Hh d.
  rewrite (Hlog m img0 Hread), (Hlog (with_boardDimension m d) img0 Hread).
  by rewrite imageBoundsOf_with_boardDimension.
Qed.

Lemma boards_reported_spec_witness :
  let img := pixelImage 0 0 (RGBA 1 2 3 255) in
  let m := newBeadMachine (runFlags false false 0 0 20) in
  readImageFile (envOf img) (inputFileName m) = inl img /\
  boards_reported (process (envOf img) (with_boardDimension m 58)) =
    boards_reported (process (envOf img) m).
Proof.
  intros img m.
  assert (H : readImageFile (envOf img) (inputFileName m) = inl img) by reflexivity.
  split; [exact H|].
  apply (proj2 (boards_reported_spec (envOf img) m img H)); simpl; lia.
Defined.

(** ** The colour caches *)

Lemma color_eqb_spec (c1 c2 : go_color) : color_eqb c1 c2 = true <-> c1 = c2.
Proof.
  destruct c1, c2; simpl; split; intros H; try discriminate;
    first [ injection H; intros; subst; by rewrite ?Z.eqb_refl
          | repeat match goal with
                   | H : _ && _ = true |- _ => apply andb_true_iff in H as [? ?]
                   | H : (_ =? _) = true |- _ => apply Z.eqb_eq in H
                   end; subst; reflexivity ].
Qed.

Lemma cmap_lookup_filter {V} (m : color_map V) k1 k2 :
  color_eqb k1 k2 = false ->
  cmap_lookup k2 (List.filter (fun kv => negb (color_eqb (fst kv) k1)) m) = cmap_lookup k2 m.
Proof.
  intros Hne. induction m as [|[k v] m IH]; [done|].
  simpl.
  destruct (color_eqb k k1) eqn:Hk; simpl.
  - apply color_eqb_spec in Hk as ->. by rewrite Hne.
  - by rewrite IH.
Qed.

(** C3 (amended): a key of [colorMatchCache] or [rgbLabCache] hits the
    entry stored under another key exactly when the two [color.Color]
    values are equal, i.e. same dynamic type and same channels, alpha
    included. *)
Theorem cmap_key_equality (V : Type) (m : color_map V) (k1 k2 : go_color) (v : V) :
  cmap_lookup k2 (cmap_insert k1 v m) = (if color_eqb k1 k2 then Some v else cmap_lookup k2 m) /\
  (color_eqb k1 k2 = true <-> k1 = k2).
Proof.
  split; [|apply color_eqb_spec].
  unfold cmap_insert. simpl.
  destruct (color_eqb k1 k2) eqn:Hk; [done|].
  by apply cmap_lookup_filter.
Qed.

(** C3: two colours with the same RGB channels and different alpha values
    are different keys of [colorMatchCache]. *)
Lemma cache_alpha_counterexample :
  cmap_lookup (RGBA 200 30 40 128) (cmap_insert (RGBA 200 30 40 255) "Red" []) = None.
Proof. reflexivity. Qed.

(** C8: [startBeadMachine] builds the transformers from the fixed
    configuration (sRGB, Bradford adaptation, illuminant D50 for both
    transformers, 8-bit clamping), whatever the flags, so the Lab value of
    a triple is the same function of the triple for every run. *)
Theorem newBeadMachine_colorspace
    (rgb_convert : rgb_transformer -> Z * Z * Z -> spec_float * spec_float * spec_float)
    (lab_invert : lab_transformer -> spec_float * spec_float * spec_float -> lab)
    (f1 f2 : flags) :
  rgbTransformer (newBeadMachine f1) =
    mkRGBTransformer "SpaceSRGB" "AdaptationBradford" "IlluminantRefD50" "Scaler8bClamping"
      f_one None /\
  labTransformer (newBeadMachine f1) = mkLabTransformer "IlluminantRefD50" /\
  lt_illuminant (labTransformer (newBeadMachine f1)) =
    rt_illuminant (rgbTransformer (newBeadMachine f1)) /\
  f_one = S754_finite false (2 ^ 52) (-52) /\
  (forall rgb, toLab rgb_convert lab_invert (newBeadMachine f1) rgb =
               toLab rgb_convert lab_invert (newBeadMachine f2) rgb).
Proof. repeat split. Qed.

(** ** The usage table *)

(** Equality of bead names. *)
Definition name_dec (x y : string) : {x = y} + {x <> y} := decide (x = y).

(** One increment of a count, with the wrap-around of [int]. *)
Definition incrCount (c : Z) : Z := wrap64 (c + 1).

Lemma lookup_incrUsage_eq (t : gmap string Z) x :
  incrUsage t x !! x = Some (incrCount (default 0 (t !! x))).
Proof. unfold incrUsage. by rewrite lookup_insert_eq. Qed.

Lemma lookup_incrUsage_ne (t : gmap string Z) x k :
  x <> k -> incrUsage t x !! k = t !! k.
Proof. intros Hne. unfold incrUsage. by rewrite lookup_insert_ne. Qed.

(** After folding [l] into [t], the entry of [k] is [t]'s entry
    incremented once per occurrence of [k] in [l]. *)
Lemma lookup_foldl_incrUsage (l : list string) (t : gmap string Z) k :
  foldl incrUsage t l !! k =
    if (count_occ name_dec l k =? 0)%nat then t !! k
    else Some (Nat.iter (count_occ name_dec l k) incrCount (default 0 (t !! k))).
Proof.
  revert t. induction l as [|x l IH]; intros t; simpl; [done|].
  rewrite IH. destruct (name_dec x k) as [->|Hne].
  - rewrite lookup_incrUsage_eq. simpl.
    destruct (count_occ name_dec l k) as [|n] eqn:Hc; simpl; [done|].
    f_equal. by rewrite <- Nat.iter_succ_r.
  - by rewrite lookup_incrUsage_ne.
Qed.

Lemma iter_incrCount (n : nat) : Z.of_nat n < 2 ^ 63 -> Nat.iter n incrCount 0 = Z.of_nat n.
Proof.
  induction n as [|n IH]; intros Hn; [done|].
  rewrite Nat.iter_succ, IH by lia. unfold incrCount. rewrite wrap64_small; lia.
Qed.

(** C4: the table maps each name to its number of occurrences, has no
    entry for an absent name, and does not depend on the order of the
    events. *)
Theorem countUsage_spec (names : list string) :
  Z.of_nat (length names) < 2 ^ 63 ->
  (forall k, countUsage names !! k =
     if (count_occ name_dec names k =? 0)%nat then None
     else Some (Z.of_nat (count_occ name_dec names k))) /\
  (forall names', names' ≡ₚ names -> countUsage names' = countUsage names).
Proof.
  intros Hlen. split.
  - intros k. unfold countUsage. rewrite lookup_foldl_incrUsage, lookup_empty. simpl.
    destruct (count_occ name_dec names k =? 0)%nat; [done|].
    rewrite iter_incrCount; [done|].
    pose proof (count_occ_bound name_dec k names). lia.
  - intros names' Hperm. apply map_eq. intros k. unfold countUsage.
    rewrite !lookup_foldl_incrUsage.
    by rewrite (proj1 (Permutation_count_occ name_dec names' names) Hperm k).
Qed.

Lemma countUsage_spec_witness :
  Z.of_nat (length ["Red"; "Blue"; "Red"]) < 2 ^ 63 /\
  countUsage ["Red"; "Blue"; "Red"] !! "Red" = Some 2.
Proof.
  assert (H : Z.of_nat (length ["Red"; "Blue"; "Red"]) < 2 ^ 63) by (simpl; lia).
  split; [exact H|].
  rewrite (proj1 (countUsage_spec ["Red"; "Blue"; "Red"] H) "Red"). reflexivity.
Defined.

(** ** The usage aggregator over time *)

(** What holds after a run from [usage_init] with events [tr]: in the loop,
    the channel holds the names sent and not yet received, and the table
    counts the received ones; after the loop the channel is closed and
    drained, and the reports made so far are in [tr]. *)
Definition usage_inv (tr : list usage_event) (s : usage_state) : Prop :=
  match u_pc s with
  | UsageLoop =>
      sends_of tr = recvs_of tr ++ u_buf s /\ u_counts s = countUsage (recvs_of tr)
  | pc =>
      u_closed s = true /\ u_buf s = [] /\ sends_of tr = recvs_of tr /\
      u_counts s = countUsage (sends_of tr) /\
      match pc with
      | UsageReportEach rest =>
          EvReportCount (Z.of_nat (size (u_counts s))) ∈ tr /\
          exists done, done ++ rest ≡ₚ map_to_list (u_counts s) /\
            forall k v, (k, v) ∈ done -> EvReportUsage k v ∈ tr
      | UsageSendDone | UsageFinished =>
          EvReportCount (Z.of_nat (size (u_counts s))) ∈ tr /\
          forall k v, (k, v) ∈ map_to_list (u_counts s) -> EvReportUsage k v ∈ tr
      | _ => True
      end
  end.

Lemma sends_of_app tr tr' : sends_of (tr ++ tr') = sends_of tr ++ sends_of tr'.
Proof. apply omap_app. Qed.

Lemma recvs_of_app tr tr' : recvs_of (tr ++ tr') = recvs_of tr ++ recvs_of tr'.
Proof. apply omap_app. Qed.

Lemma countUsage_snoc l x : countUsage (l ++ [x]) = incrUsage (countUsage l) x.
Proof. unfold countUsage. by rewrite foldl_app. Qed.

Lemma usage_inv_step tr s e s' :
  usage_inv tr s -> usage_step s e s' -> usage_inv (tr ++ [e]) s'.
Proof.
  intros Hinv Hstep.
  destruct Hstep; unfold usage_inv in *; simpl in *;
    rewrite ?sends_of_app, ?recvs_of_app; simpl; rewrite ?app_nil_r.
  - (* send *)
    destruct pc; [|destruct_and!; discriminate..].
    destruct Hinv as [Hs Hc]. split; [|done]. rewrite Hs. by rewrite <- app_assoc.
  - (* close *)
    destruct pc; [done|destruct_and!; discriminate..].
  - (* receive *)
    destruct Hinv as [Hs Hc]. split.
    + rewrite Hs. by rewrite <- app_assoc.
    + by rewrite Hc, countUsage_snoc.
  - (* end of the range loop *)
    destruct Hinv as [Hs Hc]. rewrite app_nil_r in Hs. by rewrite Hs, <- Hc.
  - (* number of colours *)
    destruct Hinv as (Hcl & Hb & Hs & Hc & _).
    repeat split; auto.
    + set_solver.
    + exists []. split; [done|]. intros k v Hkv. set_solver.
  - (* one colour *)
    destruct Hinv as (Hcl & Hb & Hs & Hc & Hcount & done & Hperm & Hdone).
    repeat split; auto.
    + set_solver.
    + exists (done ++ [(k, v)]). split.
      * by rewrite <- app_assoc.
      * intros k' v' Hkv. apply elem_of_app in Hkv as [Hkv|Hkv].
        -- apply elem_of_app. left. by apply Hdone.
        -- apply list_elem_of_singleton in Hkv. injection Hkv as -> ->. set_solver.
  - (* end of the report loop *)
    destruct Hinv as (Hcl & Hb & Hs & Hc & Hcount & done & Hperm & Hdone).
    repeat split; auto.
    + set_solver.
    + intros k v Hkv. apply elem_of_app. left. apply Hdone.
      rewrite app_nil_r in Hperm. by rewrite Hperm.
  - (* completion signal *)
    destruct Hinv as (Hcl & Hb & Hs & Hc & Hcount & Hall).
    repeat split; auto.
    + set_solver.
    + intros k v Hkv. apply elem_of_app. left. by apply Hall.
Qed.

Lemma usage_inv_run tr s : usage_run usage_init tr s -> usage_inv tr s.
Proof.
  induction 1 as [|tr s e s' Hrun IH Hstep].
  - unfold usage_inv. simpl. done.
  - by apply usage_inv_step with s.
Qed.

(** C5: in every run of the aggregator against producers that send and
    then close [beadUsageChan], a report is made only when the channel is
    closed and drained, every name sent has been received and the reported
    values are those of the table of all names sent; the completion signal
    on [beadStatsDone] comes after the whole report. *)
Theorem usage_reports_after_close (tr : list usage_event) (s s' : usage_state) (e : usage_event) :
  usage_run usage_init tr s -> usage_step s e s' ->
  (is_report e = true ->
     u_closed s = true /\ u_buf s = [] /\ recvs_of tr = sends_of tr) /\
  (forall n, e = EvReportCount n -> n = Z.of_nat (size (countUsage (sends_of tr)))) /\
  (forall k v, e = EvReportUsage k v -> countUsage (sends_of tr) !! k = Some v) /\
  (e = EvDone ->
     u_closed s = true /\ u_buf s = [] /\ recvs_of tr = sends_of tr /\
     EvReportCount (Z.of_nat (size (countUsage (sends_of tr)))) ∈ tr /\
     forall k v, countUsage (sends_of tr) !! k = Some v -> EvReportUsage k v ∈ tr).
Proof.
  intros Hrun Hstep. pose proof (usage_inv_run tr s Hrun) as Hinv.
  destruct Hstep; unfold usage_inv in Hinv; simpl in *;
    repeat split; intros; try discriminate.
  - destruct_and!. done.
  - destruct_and!. done.
  - destruct_and!. done.
  - destruct_and!. match goal with H : EvReportCount _ = EvReportCount _ |- _ =>
      injection H as <- end. by subst.
  - destruct Hinv as (Hcl & Hb & Hs & Hc & Hcount & done & Hperm & Hdone). done.
  - destruct Hinv as (Hcl & Hb & Hs & Hc & Hcount & done & Hperm & Hdone). done.
  - destruct Hinv as (Hcl & Hb & Hs & Hc & Hcount & done & Hperm & Hdone). done.
  - destruct Hinv as (Hcl & Hb & Hs & Hc & Hcount & done & Hperm & Hdone).
    match goal with H : EvReportUsage _ _ = EvReportUsage _ _ |- _ =>
      injection H as <- <- end.
    rewrite <- Hc. apply elem_of_map_to_list. rewrite <- Hperm. set_solver.
  - destruct_and!. done.
  - destruct_and!. done.
  - destruct_and!. done.
  - destruct Hinv as (Hcl & Hb & Hs & Hc & Hcount & Hall). by rewrite <- Hc.
  - destruct Hinv as (Hcl & Hb & Hs & Hc & Hcount & Hall). apply Hall.
    rewrite Hc. by apply elem_of_map_to_list.
Qed.

Lemma usage_reports_after_close_witness :
  let t := incrUsage ∅ "Red" in
  let tr := [EvSend "Red"; EvClose; EvRecv "Red"; EvRangeEnd] in
  let s := mkUsageState UsageReportCount t [] true in
  let s' := mkUsageState (UsageReportEach (map_to_list t)) t [] true in
  (usage_run usage_init tr s /\ usage_step s (EvReportCount (Z.of_nat (size t))) s') /\
  Z.of_nat (size t) = Z.of_nat (size (countUsage (sends_of tr))).
Proof.
  intros t tr s s'.
  assert (Hrun : usage_run usage_init tr s).
  { change tr with (((([] ++ [EvSend "Red"]) ++ [EvClose]) ++ [EvRecv "Red"]) ++ [EvRangeEnd]).
    eapply RunStep; [|apply StepRangeEnd].
    eapply RunStep; [|apply StepRecv].
    eapply RunStep; [|apply StepClose].
    eapply RunStep; [apply RunNil|apply (StepSend UsageLoop ∅ nil "Red")]. }
  assert (Hstep : usage_step s (EvReportCount (Z.of_nat (size t))) s')
    by (apply StepReportCount; reflexivity).
  split; [split; assumption|].
  exact (proj1 (proj2 (usage_reports_after_close tr s s' _ Hrun Hstep)) _ eq_refl).
Defined.

(** ** Rounding in binary64 *)

(** Error bounds for the [SpecFloat] operations used by
    [calculateBeadBoardsNeeded]: the shifts of [binary_round_aux] keep
    the integer part of an exact quotient [N / D] with its round and
    sticky bits, and rounding to nearest moves the value by at most half a
    unit of the last place. *)
Module Binary64.

Lemma digits2_pos_size (p : positive) : digits2_pos p = Pos.size p.
Proof. induction p as [p IH|p IH|]; simpl; rewrite ?IH; reflexivity. Qed.

Lemma Zdigits2_log2 (p : positive) : Zdigits2 (Zpos p) = Z.log2 (Zpos p) + 1.
Proof.
  unfold Zdigits2. rewrite digits2_pos_size.
  destruct p as [p|p|]; simpl; [rewrite Pos2Z.inj_succ..|]; reflexivity.
Qed.

Lemma Zdigits2_bounds (p : positive) :
  2 ^ (Zdigits2 (Zpos p) - 1) <= Zpos p < 2 ^ Zdigits2 (Zpos p).
Proof.
  rewrite Zdigits2_log2. replace (Z.log2 (Zpos p) + 1 - 1) with (Z.log2 (Zpos p)) by lia.
  apply Z.log2_spec. lia.
Qed.

Lemma Zdigits2_le (p : positive) t : Zpos p < 2 ^ t -> Zdigits2 (Zpos p) <= t.
Proof.
  intros Hp. pose proof (Zdigits2_bounds p) as [Hlo _].
  destruct (Z.le_gt_cases (Zdigits2 (Zpos p)) t) as [|Hgt]; [done|].
  assert (2 ^ t <= 2 ^ (Zdigits2 (Zpos p) - 1)) by (apply Z.pow_le_mono_r; lia). lia.
Qed.

Lemma Zdigits2_ge (p : positive) t : 0 <= t -> 2 ^ t <= Zpos p -> t + 1 <= Zdigits2 (Zpos p).
Proof.
  intros Ht Hp. pose proof (Zdigits2_bounds p) as [_ Hhi].
  destruct (Z.le_gt_cases (t + 1) (Zdigits2 (Zpos p))) as [|Hlt]; [done|].
  assert (2 ^ Zdigits2 (Zpos p) <= 2 ^ t) by (apply Z.pow_le_mono_r; lia). lia.
Qed.

Lemma iter_pos_nat {A} (f : A -> A) (p : positive) (x : A) :
  SpecFloat.iter_pos f p x = Nat.iter (Pos.to_nat p) f x.
Proof.
  revert x. induction p as [p IH|p IH|]; intros x; cbn [SpecFloat.iter_pos].
  - rewrite !IH, Pos2Nat.inj_xI.
    replace (S (2 * Pos.to_nat p)) with (Pos.to_nat p + (Pos.to_nat p + 1))%nat by lia.
    rewrite !Nat.iter_add. reflexivity.
  - rewrite !IH, Pos2Nat.inj_xO, <- Nat.iter_add. f_equal. lia.
  - reflexivity.
Qed.

Lemma odd_double_succ a : Z.odd (2 * a + 1) = true.
Proof. rewrite Z.add_comm, Z.odd_add_mul_2. reflexivity. Qed.

(** [r] holds the integer part of [N / D], the bit of weight 1/2 and
    whether anything below it is non-zero. *)
Definition rec_ok (N D : Z) (r : shr_record) : Prop :=
  shr_m r = N / D /\ shr_r r = Z.odd (2 * N / D) /\ shr_s r = negb (2 * N mod D =? 0).

Lemma shr_1_nonneg (m : Z) rb sb :
  0 <= m -> shr_1 (Build_shr_record m rb sb) = Build_shr_record (m / 2) (Z.odd m) (rb || sb).
Proof.
  intros Hm. rewrite <- Z.div2_div.
  destruct m as [|[p|p|]|p]; simpl; try reflexivity; lia.
Qed.

(** The parity of [2N / D] and the remainder [2N mod D] in terms of the
    remainder of [N / D]. *)
Lemma double_div_cases N D :
  0 < D ->
  (2 * (N mod D) < D /\ 2 * N / D = 2 * (N / D) /\ 2 * N mod D = 2 * (N mod D)) \/
  (D <= 2 * (N mod D) /\ 2 * N / D = 2 * (N / D) + 1 /\ 2 * N mod D = 2 * (N mod D) - D).
Proof.
  intros HD. pose proof (Z.div_mod N D ltac:(lia)) as HN.
  pose proof (Z.mod_pos_bound N D HD) as Hb.
  destruct (Z.lt_ge_cases (2 * (N mod D)) D) as [Hlt|Hge]; [left|right]; split; auto.
  - split.
    + symmetry. apply Z.div_unique with (2 * (N mod D)); lia.
    + symmetry. apply Z.mod_unique with (2 * (N / D)); lia.
  - split.
    + symmetry. apply Z.div_unique with (2 * (N mod D) - D); lia.
    + symmetry. apply Z.mod_unique with (2 * (N / D) + 1); lia.
Qed.

Lemma shr_1_ok N D r : 0 <= N -> 0 < D -> rec_ok N D r -> rec_ok N (2 * D) (shr_1 r).
Proof.
  intros HN HD (Hm & Hr & Hs). destruct r as [m rb sb]; simpl in Hm, Hr, Hs. subst m rb sb.
  rewrite shr_1_nonneg by (apply Z.div_pos; lia).
  unfold rec_ok; simpl. split; [|split].
  - rewrite Z.div_div by lia. f_equal. lia.
  - rewrite Z.div_mul_cancel_l by lia. reflexivity.
  - rewrite Z.mul_mod_distr_l by lia.
    pose proof (Z.mod_pos_bound N D HD).
    destruct (double_div_cases N D HD) as [(Hlt & Hq & Hr)|(Hge & Hq & Hr)];
      rewrite Hq, Hr.
    + rewrite Z.odd_mul. simpl.
      destruct (Z.eqb_spec (2 * (N mod D)) 0); destruct (Z.eqb_spec (2 * (N mod D)) 0);
        reflexivity.
    + rewrite odd_double_succ. simpl.
      destruct (Z.eqb_spec (2 * (N mod D)) 0); [lia|reflexivity].
Qed.

Lemma iter_shr_1_ok N D r (n : nat) :
  0 <= N -> 0 < D -> rec_ok N D r -> rec_ok N (D * 2 ^ Z.of_nat n) (Nat.iter n shr_1 r).
Proof.
  intros HN HD. revert r. induction n as [|n IH]; intros r Hr; cbn [Nat.iter].
  - by rewrite Z.mul_1_r.
  - replace (D * 2 ^ Z.of_nat (S n)) with (2 * (D * 2 ^ Z.of_nat n)).
    + apply shr_1_ok; [done| |by apply IH].
      pose proof (Z.pow_pos_nonneg 2 (Z.of_nat n) ltac:(lia) ltac:(lia)). lia.
    + rewrite Nat2Z.inj_succ, Z.pow_succ_r by lia. lia.
Qed.

Lemma shr_ok N D r e n :
  0 <= N -> 0 < D -> rec_ok N D r ->
  rec_ok N (D * 2 ^ Z.max 0 n) (fst (shr r e n)) /\ snd (shr r e n) = e + Z.max 0 n.
Proof.
  intros HN HD Hr. destruct n as [|p|p]; cbn [shr fst snd].
  - by rewrite Z.mul_1_r, Z.add_0_r.
  - rewrite iter_pos_nat. split; [|lia].
    replace (Z.max 0 (Zpos p)) with (Z.of_nat (Pos.to_nat p)) by lia.
    by apply iter_shr_1_ok.
  - by rewrite Z.mul_1_r, Z.add_0_r.
Qed.

Lemma round_nearest_even_ok N D r :
  0 <= N -> 0 < D -> rec_ok N D r ->
  let R := round_nearest_even (shr_m r) (loc_of_shr_record r) in
  0 <= R /\ R <= N / D + 1 /\ Z.abs (2 * R * D - 2 * N) <= D.
Proof.
  intros HN HD (Hm & Hr & Hs). destruct r as [m rb sb]; simpl in Hm, Hr, Hs. subst m rb sb.
  pose proof (Z.div_mod N D ltac:(lia)) as HNd.
  pose proof (Z.mod_pos_bound N D HD). pose proof (Z.div_pos N D HN HD).
  destruct (double_div_cases N D HD) as [(H1 & H2 & H3)|(H1 & H2 & H3)]; rewrite H2, H3.
  - rewrite Z.odd_mul. simpl.
    destruct (Z.eqb_spec (2 * (N mod D)) 0); simpl; nia.
  - rewrite odd_double_succ. simpl.
    destruct (Z.eqb_spec (2 * (N mod D) - D) 0); simpl;
      [destruct (Z.even (N / D))|]; nia.
Qed.

(** The location computed by [SFdiv_core_binary] from a remainder. *)
Lemma new_location_ok N D :
  0 <= N -> 0 < D -> rec_ok N D (shr_record_of_loc (N / D) (new_location D (N mod D))).
Proof.
  intros HN HD. pose proof (Z.mod_pos_bound N D HD).
  unfold new_location, rec_ok. destruct (Z.even D) eqn:Ev;
    [unfold new_location_even|unfold new_location_odd];
    destruct (Z.eqb_spec (N mod D) 0) as [H0|H0].
  - simpl. destruct (double_div_cases N D HD) as [(H1 & H2 & H3)|(H1 & H2 & H3)]; [|lia].
    rewrite H2, H3, Z.odd_mul, H0. auto.
  - destruct (double_div_cases N D HD) as [(H1 & H2 & H3)|(H1 & H2 & H3)]; rewrite H2, H3.
    + replace (2 * (N mod D) ?= D) with Lt by (symmetry; apply Z.compare_lt_iff; lia).
      simpl. rewrite Z.odd_mul. destruct (Z.eqb_spec (2 * (N mod D)) 0); [lia|auto].
    + rewrite odd_double_succ.
      destruct (Z.compare_spec (2 * (N mod D)) D); [|lia|]; simpl;
        destruct (Z.eqb_spec (2 * (N mod D) - D) 0); auto; lia.
  - simpl. destruct (double_div_cases N D HD) as [(H1 & H2 & H3)|(H1 & H2 & H3)]; [|lia].
    rewrite H2, H3, Z.odd_mul, H0. auto.
  - destruct (double_div_cases N D HD) as [(H1 & H2 & H3)|(H1 & H2 & H3)]; rewrite H2, H3.
    + rewrite Z.odd_mul.
      destruct (Z.compare_spec (2 * (N mod D) + 1) D); simpl;
        destruct (Z.eqb_spec (2 * (N mod D)) 0); auto; lia.
    + rewrite odd_double_succ.
      assert (2 * (N mod D) <> D).
      { intros E. rewrite <- E, Z.even_mul in Ev. discriminate. }
      replace (2 * (N mod D) + 1 ?= D) with Gt by (symmetry; apply Z.compare_gt_iff; lia).
      simpl. destruct (Z.eqb_spec (2 * (N mod D) - D) 0); auto; lia.
Qed.

Lemma fexp64 x : fexp prec64 emax64 x = Z.max (x - 53) (-1074).
Proof. reflexivity. Qed.

(** [binary_round_aux] on the exact value [N / D * 2 ^ e] whose integer
    part is [mx]: the result is [R * 2 ^ (e + s)] for an [R] within half a
    unit of [N / (D * 2 ^ s)], where [s] is the shift to 53 digits. *)
Lemma round_aux_ok mx e lx N D :
  0 < mx -> 0 <= N -> 0 < D -> -1074 <= e ->
  rec_ok N D (shr_record_of_loc mx lx) ->
  forall s, s = Z.max 0 (fexp prec64 emax64 (Zdigits2 mx + e) - e) ->
  e + s + 1 <= 971 ->
  exists R, 0 <= R /\ Z.abs (2 * R * (D * 2 ^ s) - 2 * N) <= D * 2 ^ s /\
    ((R = 0 /\ binary_round_aux prec64 emax64 false mx e lx = S754_zero false) \/
     exists m e'', binary_round_aux prec64 emax64 false mx e lx = S754_finite false m e'' /\
       e + s <= e'' <= e + s + 1 /\ R = Zpos m * 2 ^ (e'' - (e + s))).
Proof.
  intros Hmx HN HD He Hr s Hsd Hs.
  assert (Hs0 : 0 <= s) by lia.
  assert (Hp : 0 < 2 ^ s) by (apply Z.pow_pos_nonneg; lia).
  assert (Hmx' : Zdigits2 mx <= 53 + s).
  { rewrite Hsd, fexp64. lia. }
  unfold binary_round_aux, shr_fexp.
  destruct (shr_ok N D (shr_record_of_loc mx lx) e
              (fexp prec64 emax64 (Zdigits2 mx + e) - e) HN HD Hr) as [H1 H2].
  rewrite <- Hsd in H1, H2.
  destruct (shr (shr_record_of_loc mx lx) e _) as [mrs' e'] eqn:Eshr.
  simpl in H1, H2. subst e'.
  destruct (round_nearest_even_ok N (D * 2 ^ s) mrs' HN ltac:(nia) H1) as (HR0 & HR1 & HR2).
  set (R := round_nearest_even (shr_m mrs') (loc_of_shr_record mrs')) in *.
  exists R. split; [done|]. split; [done|].
  (* the integer part has at most 53 digits *)
  assert (HRb : R <= 2 ^ 53).
  { assert (N / (D * 2 ^ s) < 2 ^ 53); [|lia].
    rewrite <- Z.div_div by lia.
    assert (Hm0 : mx = N / D) by (destruct Hr as [Hm0 _]; destruct lx as [|[]]; exact Hm0).
    destruct mx as [|p|p]; [lia| |lia].
    pose proof (Zdigits2_bounds p) as [_ Hd].
    apply Z.div_lt_upper_bound; [lia|]. rewrite <- Hm0, <- Z.pow_add_r by lia.
    assert (2 ^ Zdigits2 (Zpos p) <= 2 ^ (s + 53)) by (apply Z.pow_le_mono_r; lia). lia. }
  destruct (shr_ok R 1 (shr_record_of_loc R loc_Exact) (e + s)
              (fexp prec64 emax64 (Zdigits2 R + (e + s)) - (e + s)) HR0 ltac:(lia))
    as [H3 H4].
  { unfold rec_ok; simpl. rewrite !Z.div_1_r, Z.mod_1_r, Z.odd_mul. auto. }
  destruct (shr _ (e + s) _) as [mrs'' e''] eqn:Eshr2. simpl in H3, H4.
  destruct H3 as [Hm'' _]. rewrite Z.mul_1_l in Hm''.
  destruct R as [|r|r] eqn:ER; [|clear ER|lia].
  - left. split; [done|]. rewrite Zdiv_0_l in Hm''. by rewrite Hm''.
  - right. rewrite fexp64 in H4, Hm''.
    destruct (Z.eq_dec (Zpos r) (2 ^ 53)) as [Er|Er].
    + rewrite Er in H4, Hm''. replace (Zdigits2 (2 ^ 53)) with 54 in H4, Hm'' by reflexivity.
      replace (Z.max 0 (Z.max (54 + (e + s) - 53) (-1074) - (e + s))) with 1 in H4, Hm'' by lia.
      rewrite Hm''. replace (2 ^ 53 / 2 ^ 1) with (Zpos 4503599627370496) by reflexivity.
      cbn beta iota.
      replace (e'' <=? emax64 - prec64) with true by (symmetry; apply Z.leb_le; unfold emax64, prec64; lia).
      eexists _, _. split; [reflexivity|]. split; [lia|].
      rewrite Er, H4. replace (e + s + 1 - (e + s)) with 1 by lia. reflexivity.
    + assert (Zdigits2 (Zpos r) <= 53) by (apply Zdigits2_le; lia).
      replace (Z.max 0 (Z.max (Zdigits2 (Zpos r) + (e + s) - 53) (-1074) - (e + s))) with 0
        in H4, Hm'' by lia.
      rewrite Z.pow_0_r, Z.div_1_r in Hm''. rewrite Hm''.
      replace (e'' <=? emax64 - prec64) with true by (symmetry; apply Z.leb_le; unfold emax64, prec64; lia).
      eexists _, _. split; [reflexivity|]. split; [lia|].
      rewrite H4, Z.add_0_r, Z.sub_diag, Z.pow_0_r, Z.mul_1_r. reflexivity.
Qed.

Lemma iter_xO_mul (m n : positive) : Zpos (Pos.iter xO m n) = Zpos m * 2 ^ Zpos n.
Proof.
  induction n as [|n IH] using Pos.peano_ind.
  - simpl. lia.
  - rewrite Pos.iter_succ, Pos2Z.inj_succ, Z.pow_succ_r by lia.
    change (Zpos (xO (Pos.iter xO m n))) with (2 * Zpos (Pos.iter xO m n)).
    rewrite IH. ring.
Qed.

Lemma shl_align_fst m e ez :
  ez <= e -> Zpos (fst (shl_align m e ez)) = Zpos m * 2 ^ (e - ez).
Proof.
  intros He. unfold shl_align. destruct (ez - e) eqn:E; simpl.
  - replace (e - ez) with 0 by lia. lia.
  - lia.
  - rewrite iter_xO_mul. do 2 f_equal. lia.
Qed.

Lemma abs_scale x y c : 0 <= c -> Z.abs x <= y -> Z.abs (x * c) <= y * c.
Proof. intros Hc H. rewrite Z.abs_mul, (Z.abs_eq c) by done. nia. Qed.

Lemma abs_unscale x y c : 0 < c -> Z.abs (x * c) <= y * c -> Z.abs x <= y.
Proof. intros Hc H. rewrite Z.abs_mul, (Z.abs_eq c) in H by lia. nia. Qed.

(** [float64(n)] of a small positive integer [n] is exact. *)
Lemma normalize_int_ok n :
  1 <= n < 2 ^ 52 ->
  exists m e, binary_normalize prec64 emax64 n 0 false = S754_finite false m e /\
    e <= 0 /\ Zpos m < 2 ^ 53 /\ Zpos m = n * 2 ^ (- e).
Proof.
  intros Hn. destruct n as [|p|p]; try lia. unfold binary_normalize, binary_round.
  assert (Hk : Zpos (digits2_pos p) = Zdigits2 (Zpos p)) by reflexivity.
  pose proof (Zdigits2_bounds p) as Hb.
  assert (Hk52 : Zdigits2 (Zpos p) <= 52) by (apply Zdigits2_le; lia).
  assert (Hk1 : 1 <= Zdigits2 (Zpos p)) by (unfold Zdigits2; lia).
  rewrite Hk, fexp64.
  replace (Z.max (Zdigits2 (Zpos p) + 0 - 53) (-1074)) with (Zdigits2 (Zpos p) - 53) by lia.
  set (k := Zdigits2 (Zpos p)) in *.
  unfold shl_align. destruct (k - 53 - 0) as [|δ|δ] eqn:Ek; [lia|lia|].
  cbn beta iota.
  set (mx := Zpos (Pos.iter xO p δ)).
  assert (Hmx : mx = Zpos p * 2 ^ (53 - k)).
  { unfold mx. rewrite iter_xO_mul. do 2 f_equal. lia. }
  assert (Hmx53 : mx < 2 ^ 53).
  { rewrite Hmx. replace (2 ^ 53) with (2 ^ k * 2 ^ (53 - k)) by (rewrite <- Z.pow_add_r by lia; f_equal; lia).
    apply Z.mul_lt_mono_pos_r; [apply Z.pow_pos_nonneg|]; lia. }
  assert (Hmx0 : 0 < mx) by (unfold mx; lia).
  destruct (round_aux_ok mx (k - 53) loc_Exact mx 1 Hmx0 ltac:(lia) ltac:(lia) ltac:(lia))
    with (s := 0) as (R & HR0 & HR & Hres).
  - unfold rec_ok; simpl. rewrite !Z.div_1_r, Z.mod_1_r, Z.odd_mul. auto.
  - rewrite fexp64.
    assert (Zdigits2 mx <= 53) by (destruct mx; [lia|apply Zdigits2_le; lia|lia]). lia.
  - lia.
  - rewrite Z.pow_0_r, Z.mul_1_r in HR. assert (R = mx) by lia. subst R.
    destruct Hres as [[? _]|(m & e'' & Hres & He'' & HRm)]; [lia|].
    rewrite Z.add_0_r in He'', HRm.
    rewrite Hres. exists m, e''. split; [done|]. split; [lia|].
    assert (Ha : 0 < 2 ^ (e'' - (k - 53))) by (apply Z.pow_pos_nonneg; lia).
    split; [nia|].
    apply (Z.mul_cancel_r _ _ (2 ^ (e'' - (k - 53)))); [lia|].
    rewrite <- HRm, Hmx, <- Z.mul_assoc, <- Z.pow_add_r by lia. do 2 f_equal. lia.
Qed.

Lemma f29_eq : f29 = S754_finite false 8162774324609024 (-48).
Proof. reflexivity. Qed.

Lemma f_half_eq : f_half = S754_finite false 4503599627370496 (-53).
Proof. reflexivity. Qed.

Lemma div_core29 m1 e1 :
  Zpos m1 < 2 ^ 53 -> 1 <= Zdigits2 (Zpos m1) + e1 ->
  SFdiv_core_binary prec64 emax64 (Zpos m1) e1 8162774324609024 (-48) =
    (Zpos m1 * 2 ^ (106 - Zdigits2 (Zpos m1)) / 8162774324609024,
     Zdigits2 (Zpos m1) + e1 - 58,
     new_location 8162774324609024 (Zpos m1 * 2 ^ (106 - Zdigits2 (Zpos m1)) mod 8162774324609024)).
Proof.
  intros Hm1 Hd1. assert (Hd53 : Zdigits2 (Zpos m1) <= 53) by (apply Zdigits2_le; lia).
  unfold SFdiv_core_binary. cbv zeta.
  replace (Zdigits2 8162774324609024) with 53 by reflexivity.
  set (d1 := Zdigits2 (Zpos m1)) in *.
  replace (Z.min (fexp prec64 emax64 (d1 + e1 - (53 + -48))) (e1 - -48)) with (d1 + e1 - 58)
    by (rewrite fexp64; lia).
  replace (e1 - -48 - (d1 + e1 - 58)) with (106 - d1) by lia.
  destruct (106 - d1) as [|sp|sp] eqn:Es; [lia| |lia].
  rewrite Z.shiftl_mul_pow2 by lia.
  unfold Z.div, Z.modulo. destruct (Z.div_eucl _ _). reflexivity.
Qed.

Lemma pow2_add a b : 0 <= a -> 0 <= b -> 2 ^ (a + b) = 2 ^ a * 2 ^ b.
Proof. intros. by apply Z.pow_add_r. Qed.

Lemma pow2_pos a : 0 <= a -> 0 < 2 ^ a.
Proof. intros. by apply Z.pow_pos_nonneg. Qed.

(** [float64(d) / 29] for [1 <= d < 2^50] is within [2^-8] of [d / 29],
    on the grid of [2^-60]. *)
Lemma div29_ok d m1 e1 :
  1 <= d < 2 ^ 50 -> e1 <= 0 -> Zpos m1 < 2 ^ 53 -> Zpos m1 = d * 2 ^ (- e1) ->
  exists m e, fdiv (S754_finite false m1 e1) f29 = S754_finite false m e /\
    -57 <= e <= -6 /\ Z.abs (29 * (Zpos m * 2 ^ (e + 60)) - d * 2 ^ 60) <= 29 * 2 ^ 52.
Proof.
  intros Hd He1 Hm53 Hm1.
  assert (Hpe1 : 1 <= 2 ^ (- e1)) by (pose proof (pow2_pos (- e1)); lia).
  set (d1 := Zdigits2 (Zpos m1)).
  assert (Hlo : 1 - e1 <= d1).
  { assert (2 ^ (- e1) <= Zpos m1) by nia.
    pose proof (Zdigits2_ge m1 (- e1)). unfold d1. lia. }
  assert (Hd53 : d1 <= 53) by (apply Zdigits2_le; lia).
  assert (Hhi : d1 <= 50 - e1).
  { apply Zdigits2_le. replace (50 - e1) with (50 + - e1) by lia.
    rewrite Hm1, (pow2_add 50 (- e1)) by lia. nia. }
  unfold fdiv, SFdiv. rewrite f29_eq. cbv iota beta.
  rewrite div_core29 by (unfold d1 in *; lia). fold d1. cbv iota beta.
  change (xorb false false) with false.
  set (N := Zpos m1 * 2 ^ (106 - d1)). set (D := 8162774324609024).
  set (e' := d1 + e1 - 58).
  assert (He' : e' = d1 + e1 - 58) by reflexivity.
  assert (HN : N = d * 2 ^ 48 * 2 ^ (- e')).
  { unfold N. rewrite Hm1, <- !Z.mul_assoc, <- !pow2_add by lia. f_equal. f_equal. lia. }
  assert (HN105 : 2 ^ 105 <= N).
  { pose proof (Zdigits2_bounds m1) as [Hb _]. fold d1 in Hb. unfold N.
    replace (2 ^ 105) with (2 ^ (d1 - 1) * 2 ^ (106 - d1)) by (rewrite <- pow2_add by lia; f_equal; lia).
    apply Z.mul_le_mono_nonneg_r; [pose proof (pow2_pos (106 - d1)); lia|done]. }
  assert (Hq0 : 0 < N / D) by (apply Z.div_str_pos; unfold D; lia).
  assert (Hq46 : N / D < 2 ^ (46 - e')).
  { apply Z.div_lt_upper_bound; [unfold D; lia|].
    assert (N < 2 ^ 52 * 2 ^ (46 - e')); [|unfold D; nia].
    rewrite <- pow2_add by lia. unfold N.
    replace (52 + (46 - e')) with ((50 - e1) + (106 - d1)) by lia.
    rewrite pow2_add by lia. apply Z.mul_lt_mono_pos_r; [apply pow2_pos; lia|].
    replace (50 - e1) with (50 + - e1) by lia. rewrite Hm1, pow2_add by lia. nia. }
  assert (Hdq : Zdigits2 (N / D) <= 46 - e').
  { destruct (N / D) eqn:Eq; [lia| |lia]. apply Zdigits2_le. lia. }
  set (s := Z.max 0 (fexp prec64 emax64 (Zdigits2 (N / D) + e') - e')).
  assert (Hs : 0 <= s /\ e' + s <= -7) by (unfold s; rewrite fexp64; lia).
  assert (He's : e' <= e' + s) by lia.
  destruct (round_aux_ok (N / D) e' (new_location D (N mod D)) N D Hq0 ltac:(lia)
              ltac:(unfold D; lia) ltac:(lia) (new_location_ok N D ltac:(lia) ltac:(unfold D; lia))
              s eq_refl ltac:(lia)) as (R & HR0 & HR & Hres).
  pose proof (pow2_pos s ltac:(lia)) as HpS.
  assert (HpS50 : 2 ^ s <= 2 ^ 50) by (apply Z.pow_le_mono_r; lia).
  destruct Hres as [[-> _]|(m & e'' & Hres & He'' & HRm)].
  { exfalso. unfold D in HR. lia. }
  rewrite Hres. exists m, e''. split; [done|]. split; [lia|].
  (* from the rounding error at scale [2^-e'] to the scale [2^-60] *)
  set (g := e' + s) in *.
  assert (Hg : g = e' + s) by reflexivity.
  assert (HI : Zpos m * 2 ^ (e'' + 60) = R * 2 ^ (g + 60)).
  { rewrite HRm, <- Z.mul_assoc, <- pow2_add by lia. f_equal. f_equal. lia. }
  rewrite HI.
  assert (Hx : Z.abs (58 * R * 2 ^ s - 2 * d * 2 ^ (- e')) <= 29 * 2 ^ s).
  { apply (abs_unscale _ _ (2 ^ 48)); [lia|].
    rewrite HN in HR. unfold D in HR.
    replace ((58 * R * 2 ^ s - 2 * d * 2 ^ (- e')) * 2 ^ 48)
      with (2 * R * (8162774324609024 * 2 ^ s) - 2 * (d * 2 ^ 48 * 2 ^ (- e'))) by ring.
    lia. }
  apply (abs_scale _ _ (2 ^ (e' + 60))) in Hx; [|pose proof (pow2_pos (e' + 60)); lia].
  replace ((58 * R * 2 ^ s - 2 * d * 2 ^ (- e')) * 2 ^ (e' + 60))
    with (58 * R * (2 ^ s * 2 ^ (e' + 60)) - 2 * d * (2 ^ (- e') * 2 ^ (e' + 60))) in Hx by ring.
  rewrite <- !pow2_add in Hx by lia.
  replace (s + (e' + 60)) with (g + 60) in Hx by lia.
  replace (- e' + (e' + 60)) with 60 in Hx by lia.
  replace (29 * 2 ^ s * 2 ^ (e' + 60)) with (29 * 2 ^ (g + 60)) in Hx
    by (rewrite <- Z.mul_assoc, <- pow2_add by lia; do 2 f_equal; lia).
  assert (2 ^ (g + 60) <= 2 ^ 53) by (apply Z.pow_le_mono_r; lia).
  apply (abs_unscale _ _ 2); [lia|].
  replace ((29 * (R * 2 ^ (g + 60)) - d * 2 ^ 60) * 2) with (58 * R * 2 ^ (g + 60) - 2 * d * 2 ^ 60)
    by ring.
  lia.
Qed.

(** Adding [0.5] to such a quotient moves it by at most [2^-8] from the
    exact sum. *)
Lemma add_half_ok m e :
  -57 <= e <= -6 -> Zpos m * 2 ^ (e + 60) + 2 ^ 59 < 2 ^ 106 ->
  exists m' e', fadd (S754_finite false m e) f_half = S754_finite false m' e' /\
    -53 <= e' <= -6 /\
    Z.abs (Zpos m' * 2 ^ (e' + 60) - (Zpos m * 2 ^ (e + 60) + 2 ^ 59)) <= 2 ^ 52.
Proof.
  intros He Hlt.
  unfold fadd, SFadd. rewrite f_half_eq. cbv iota beta zeta.
  set (ez := Z.min e (-53)).
  assert (Hez : -57 <= ez <= -53 /\ ez <= e) by lia.
  change (cond_Zopp false ?x) with x.
  rewrite !shl_align_fst by lia.
  set (M := Zpos m * 2 ^ (e - ez) + Zpos 4503599627370496 * 2 ^ (-53 - ez)).
  assert (HM : M * 2 ^ (ez + 60) = Zpos m * 2 ^ (e + 60) + 2 ^ 59).
  { unfold M. rewrite Z.mul_add_distr_r, <- !Z.mul_assoc, <- !pow2_add by lia.
    replace (e - ez + (ez + 60)) with (e + 60) by lia.
    replace (-53 - ez + (ez + 60)) with 7 by lia. reflexivity. }
  assert (Hpz : 0 < 2 ^ (ez + 60)) by (apply pow2_pos; lia).
  assert (HM0 : 2 ^ (- 1 - ez) <= M).
  { apply (Z.mul_le_mono_pos_r _ _ (2 ^ (ez + 60))); [done|].
    rewrite <- pow2_add, HM by lia. replace (-1 - ez + (ez + 60)) with 59 by lia.
    pose proof (pow2_pos (e + 60)). lia. }
  assert (HM1 : M < 2 ^ (46 - ez)).
  { apply (Z.mul_lt_mono_pos_r (2 ^ (ez + 60))); [done|].
    rewrite <- pow2_add, HM by lia. replace (46 - ez + (ez + 60)) with 106 by lia. lia. }
  pose proof (pow2_pos (- 1 - ez) ltac:(lia)).
  destruct M as [|pM|pM] eqn:EM; [lia| |lia].
  unfold binary_normalize, binary_round.
  replace (Zpos (digits2_pos pM)) with (Zdigits2 (Zpos pM)) by reflexivity.
  assert (Hd0 : - ez <= Zdigits2 (Zpos pM)).
  { pose proof (Zdigits2_ge pM (- 1 - ez)). lia. }
  assert (Hd1 : Zdigits2 (Zpos pM) <= 46 - ez) by (apply Zdigits2_le; lia).
  rewrite fexp64.
  replace (Z.max (Zdigits2 (Zpos pM) + ez - 53) (-1074)) with (Zdigits2 (Zpos pM) + ez - 53) by lia.
  unfold shl_align.
  destruct (Zdigits2 (Zpos pM) + ez - 53 - ez) as [|δ|δ] eqn:Eδ; [| |lia]; cbv iota beta;
  set (s := Z.max 0 (fexp prec64 emax64 (Zdigits2 (Zpos pM) + ez) - ez));
  assert (Hs : s = Z.max 0 (Zdigits2 (Zpos pM) - 53)) by (unfold s; rewrite fexp64; lia);
  destruct (round_aux_ok (Zpos pM) ez loc_Exact (Zpos pM) 1 ltac:(lia) ltac:(lia) ltac:(lia)
              ltac:(lia) ltac:(unfold rec_ok; simpl; rewrite !Z.div_1_r, Z.mod_1_r, Z.odd_mul; auto)
              s eq_refl ltac:(lia)) as (R & HR0 & HR & Hres);
  rewrite Z.mul_1_l in HR;
  (assert (Hps : 2 ^ s <= 2 ^ (Zdigits2 (Zpos pM) - 1)) by (apply Z.pow_le_mono_r; lia));
  pose proof (Zdigits2_bounds pM) as [Hb _];
  (destruct Hres as [[-> _]|(m' & e' & Hres & He' & HRm)]; [exfalso; lia|]);
  rewrite Hres; exists m', e'; (split; [done|]); (split; [lia|]);
  (assert (HI : Zpos m' * 2 ^ (e' + 60) = R * 2 ^ (ez + s + 60))
     by (rewrite HRm, <- Z.mul_assoc, <- pow2_add by lia; do 2 f_equal; lia));
  rewrite HI, <- HM;
  (assert (Hx : Z.abs ((2 * R * 2 ^ s - 2 * Zpos pM) * 2 ^ (ez + 60)) <= 2 ^ s * 2 ^ (ez + 60))
     by (apply abs_scale; lia));
  replace ((2 * R * 2 ^ s - 2 * Zpos pM) * 2 ^ (ez + 60))
    with (2 * R * (2 ^ s * 2 ^ (ez + 60)) - 2 * (Zpos pM * 2 ^ (ez + 60))) in Hx by ring;
  rewrite <- pow2_add in Hx by lia;
  replace (s + (ez + 60)) with (ez + s + 60) in Hx by lia;
  (assert (2 ^ (ez + s + 60) <= 2 ^ 53) by (apply Z.pow_le_mono_r; lia));
  lia.
Qed.

(** [int(math.Floor(x))] of a positive [x < 2^50] with a negative
    exponent is the integer part of [x]. *)
Lemma floor_int_ok m e :
  -60 <= e < 0 -> Zpos m * 2 ^ (e + 60) < 2 ^ 110 ->
  go_int_of_float (math_Floor (S754_finite false m e)) = Zpos m * 2 ^ (e + 60) / 2 ^ 60.
Proof.
  intros He Hlt. unfold math_Floor.
  replace (0 <=? e) with false by (symmetry; apply Z.leb_gt; lia).
  change (cond_Zopp false (Zpos m)) with (Zpos m).
  assert (Hn : Zpos m * 2 ^ (e + 60) / 2 ^ 60 = Zpos m / 2 ^ (- e)).
  { replace (2 ^ 60) with (2 ^ (- e) * 2 ^ (e + 60)) by (rewrite <- pow2_add by lia; f_equal; lia).
    apply Z.div_mul_cancel_r; apply Z.pow_nonzero; lia. }
  rewrite <- Hn.
  assert (Hn50 : Zpos m * 2 ^ (e + 60) / 2 ^ 60 < 2 ^ 50).
  { apply Z.div_lt_upper_bound; [lia|]. lia. }
  assert (Hn0 : 0 <= Zpos m * 2 ^ (e + 60) / 2 ^ 60).
  { apply Z.div_pos; [pose proof (pow2_pos (e + 60)); lia|lia]. }
  destruct (Zpos m * 2 ^ (e + 60) / 2 ^ 60) as [|n|n] eqn:En; [reflexivity| |lia].
  destruct (normalize_int_ok (Zpos n) ltac:(lia)) as (m2 & e2 & Hnorm & He2 & Hm2 & Hm2n).
  rewrite Hnorm. unfold go_int_of_float.
  pose proof (pow2_pos (- e2) ltac:(lia)).
  assert (Hv : (if 0 <=? e2 then Zpos m2 * 2 ^ e2 else Z.quot (Zpos m2) (2 ^ (- e2))) = Zpos n).
  { destruct (Z.leb_spec 0 e2).
    - replace e2 with 0 in * by lia. simpl in Hm2n |- *. lia.
    - rewrite Z.quot_div_nonneg, Hm2n by lia. apply Z.div_mul. lia. }
  rewrite Hv. replace (Zpos n <? 2 ^ 63) with true by (symmetry; apply Z.ltb_lt; lia).
  reflexivity.
Qed.

End Binary64.

(** C2 (as stated, for every [d]): the float computation leaves
    [floor(d/29 + 0.5)] once [d/29] has only a few fractional bits.  For
    [d = 8187219242344078], [float64(d)/29] rounds up to the next multiple
    of [2^-4] and the sum with [0.5] rounds up again, to exactly
    [282317904908417], while [floor(d/29 + 0.5) = 282317904908416]. *)
Lemma calculateBeadBoardsNeeded_large_counterexample :
  calculateBeadBoardsNeeded 8187219242344078 = 282317904908417 /\
  (2 * 8187219242344078 + 29) / 58 = 282317904908416.
Proof. split; reflexivity. Qed.

(** C2 (amended): for every dimension [0 <= d < 2^50],
    [calculateBeadBoardsNeeded d] is [d/29] rounded half up, that is
    [floor(d/29 + 0.5) = (2d + 29) div 58] (so [30] gives [1], where the
    ceiling of [30/29] would be [2]). *)
Theorem calculateBeadBoardsNeeded_round_half_up (d : Z) :
  0 <= d < 2 ^ 50 -> calculateBeadBoardsNeeded d = (2 * d + 29) / 58.
Proof.
  intros Hd. destruct (Z.eq_dec d 0) as [->|Hd0]; [reflexivity|].
  unfold calculateBeadBoardsNeeded, float64_of_int.
  destruct (Binary64.normalize_int_ok d ltac:(lia)) as (m1 & e1 & Hn & He1 & Hm53 & Hm1).
  rewrite Hn.
  destruct (Binary64.div29_ok d m1 e1 ltac:(lia) He1 Hm53 Hm1) as (m & e & Hdiv & He & H1).
  rewrite Hdiv.
  destruct (Binary64.add_half_ok m e He ltac:(lia)) as (m' & e' & Hadd & He' & H2).
  rewrite Hadd, Binary64.floor_int_ok by lia.
  set (I1 := Zpos m * 2 ^ (e + 60)) in *. set (I2 := Zpos m' * 2 ^ (e' + 60)) in *.
  pose proof (Z.div_mod (2 * d + 29) 58 ltac:(lia)) as E.
  pose proof (Z.mod_pos_bound (2 * d + 29) 58 ltac:(lia)) as B.
  set (t := (2 * d + 29) / 58) in *. set (r := (2 * d + 29) mod 58) in *.
  assert (r <> 0) by lia.
  symmetry. apply Z.div_unique with (I2 - 2 ^ 60 * t); lia.
Qed.

Lemma calculateBeadBoardsNeeded_round_half_up_witness :
  (0 <= 30 < 2 ^ 50) /\ calculateBeadBoardsNeeded 30 = (2 * 30 + 29) / 58.
Proof.
  split; [lia|]. apply (calculateBeadBoardsNeeded_round_half_up 30). lia.
Defined.

(** * Further properties of [main.go] *)

(** ** [calculateBeadBoardsNeeded] *)

Lemma boards_formula (d : Z) :
  0 <= d < 2 ^ 50 -> calculateBeadBoardsNeeded d = (2 * d + 29) / 58.
Proof.
  intros Hd. destruct (Z.eq_dec d 0) as [->|Hd0]; [reflexivity|].
  unfold calculateBeadBoardsNeeded, float64_of_int.
  destruct (Binary64.normalize_int_ok d ltac:(lia)) as (m1 & e1 & Hn & He1 & Hm53 & Hm1).
  rewrite Hn.
  destruct (Binary64.div29_ok d m1 e1 ltac:(lia) He1 Hm53 Hm1) as (m & e & Hdiv & He & H1).
  rewrite Hdiv.
  destruct (Binary64.add_half_ok m e He ltac:(lia)) as (m' & e' & Hadd & He' & H2).
  rewrite Hadd, Binary64.floor_int_ok by lia.
  set (I1 := Zpos m * 2 ^ (e + 60)) in *. set (I2 := Zpos m' * 2 ^ (e' + 60)) in *.
  pose proof (Z.div_mod (2 * d + 29) 58 ltac:(lia)) as E.
  pose proof (Z.mod_pos_bound (2 * d + 29) 58 ltac:(lia)) as B.
  set (t := (2 * d + 29) / 58) in *. set (r := (2 * d + 29) mod 58) in *.
  assert (r <> 0) by lia.
  symmetry. apply Z.div_unique with (I2 - 2 ^ 60 * t); lia.
Qed.

(** For a dimension [0 <= d < 2^50] the reported number of boards [n]
    covers [d] up to 14 beads either way: [29 n - 14 <= d <= 29 n + 14];
    so up to 14 beads of the image may be left without a board. *)
Theorem calculateBeadBoardsNeeded_bounds (d : Z) :
  0 <= d < 2 ^ 50 ->
  29 * calculateBeadBoardsNeeded d - 14 <= d <= 29 * calculateBeadBoardsNeeded d + 14.
Proof.
  intros Hd. rewrite boards_formula by done.
  pose proof (Z.div_mod (2 * d + 29) 58 ltac:(lia)).
  pose proof (Z.mod_pos_bound (2 * d + 29) 58 ltac:(lia)). lia.
Qed.

Lemma calculateBeadBoardsNeeded_bounds_witness :
  (0 <= 43 < 2 ^ 50) /\
  29 * calculateBeadBoardsNeeded 43 - 14 <= 43 <= 29 * calculateBeadBoardsNeeded 43 + 14.
Proof. split; [lia|]. apply (calculateBeadBoardsNeeded_bounds 43). lia. Defined.

(** A dimension [0 <= d < 2^50] gets no board at all exactly when
    [d <= 14]. *)
Theorem calculateBeadBoardsNeeded_zero (d : Z) :
  0 <= d < 2 ^ 50 -> calculateBeadBoardsNeeded d = 0 <-> d <= 14.
Proof.
  intros Hd. rewrite boards_formula by done. split; intros H.
  - pose proof (Z.div_mod (2 * d + 29) 58 ltac:(lia)).
    pose proof (Z.mod_pos_bound (2 * d + 29) 58 ltac:(lia)). lia.
  - apply Z.div_small. lia.
Qed.

Lemma calculateBeadBoardsNeeded_zero_witness :
  (0 <= 14 < 2 ^ 50) /\ (calculateBeadBoardsNeeded 14 = 0 <-> 14 <= 14).
Proof. split; [lia|]. apply (calculateBeadBoardsNeeded_zero 14). lia. Defined.

(** The number of boards does not decrease when the dimension grows
    (for dimensions below [2^50]). *)
Theorem calculateBeadBoardsNeeded_monotone (d1 d2 : Z) :
  0 <= d1 -> d1 <= d2 -> d2 < 2 ^ 50 ->
  calculateBeadBoardsNeeded d1 <= calculateBeadBoardsNeeded d2.
Proof.
  intros H1 H12 H2. rewrite !boards_formula by lia.
  apply Z.div_le_mono; lia.
Qed.

Lemma calculateBeadBoardsNeeded_monotone_witness :
  (0 <= 40 /\ 40 <= 50 /\ 50 < 2 ^ 50) /\
  calculateBeadBoardsNeeded 40 <= calculateBeadBoardsNeeded 50.
Proof.
  split; [lia|]. apply (calculateBeadBoardsNeeded_monotone 40 50); lia.
Defined.

(** ** The measurement in centimetres *)

(** [float64(d) * 0.5] is exact for [0 <= d < 2^52]. *)
Lemma mul_half_units (d : Z) :
  0 <= d < 2 ^ 52 -> float_units60 (fmul (float64_of_int d) f_half) = Some (d * 2 ^ 59).
Proof.
  intros Hd. destruct (Z.eq_dec d 0) as [->|Hd0]; [reflexivity|].
  unfold float64_of_int.
  destruct (Binary64.normalize_int_ok d ltac:(lia)) as (m1 & e1 & Hn & He1 & Hm53 & Hm1).
  rewrite Hn. unfold fmul, SFmul. rewrite Binary64.f_half_eq. cbv iota beta.
  change (xorb false false) with false.
  set (mx := Zpos (m1 * 4503599627370496)).
  assert (Hmx : mx = Zpos m1 * 2 ^ 52) by (unfold mx; rewrite Pos2Z.inj_mul; reflexivity).
  pose proof (Binary64.pow2_pos (- e1) ltac:(lia)) as Hpe.
  assert (Hm1ge : 2 ^ (- e1) <= Zpos m1) by nia.
  pose proof (Binary64.Zdigits2_bounds m1) as [Hk0 Hk1].
  set (k := Zdigits2 (Zpos m1)) in *.
  assert (Hke : - e1 + 1 <= k) by (apply Binary64.Zdigits2_ge; lia).
  assert (Hk53 : k <= 53) by (apply Binary64.Zdigits2_le; lia).
  assert (Hdmx : Zdigits2 mx = k + 52).
  { assert (Zdigits2 mx <= k + 52).
    { unfold mx. apply Binary64.Zdigits2_le. fold mx.
      rewrite Hmx, Binary64.pow2_add by lia. nia. }
    assert (k + 52 <= Zdigits2 mx); [|lia].
    replace (k + 52) with (k - 1 + 52 + 1) by lia.
    unfold mx. apply Binary64.Zdigits2_ge; [lia|]. fold mx.
    rewrite Hmx, Binary64.pow2_add by lia. nia. }
  set (s := Z.max 0 (fexp prec64 emax64 (Zdigits2 mx + (e1 + -53)) - (e1 + -53))).
  assert (Hs : s = k - 1) by (unfold s; rewrite Binary64.fexp64, Hdmx; lia).
  destruct (Binary64.round_aux_ok mx (e1 + -53) loc_Exact mx 1 ltac:(lia) ltac:(lia) ltac:(lia)
              ltac:(lia) ltac:(unfold Binary64.rec_ok; simpl; rewrite !Z.div_1_r, Z.mod_1_r, Z.odd_mul; auto)
              s eq_refl ltac:(lia)) as (R & HR0 & HR & Hres).
  rewrite Z.mul_1_l in HR.
  assert (Hmx' : mx = Zpos m1 * 2 ^ (53 - k) * 2 ^ s).
  { rewrite Hmx, Hs, <- Z.mul_assoc, <- Binary64.pow2_add by lia. do 2 f_equal. lia. }
  assert (HRv : R = Zpos m1 * 2 ^ (53 - k)).
  { pose proof (Binary64.pow2_pos s ltac:(lia)) as Hps.
    assert (Z.abs (2 * R - 2 * (Zpos m1 * 2 ^ (53 - k))) <= 1); [|lia].
    apply (Binary64.abs_unscale _ _ (2 ^ s)); [lia|].
    replace ((2 * R - 2 * (Zpos m1 * 2 ^ (53 - k))) * 2 ^ s)
      with (2 * R * 2 ^ s - 2 * mx) by (rewrite Hmx'; ring). lia. }
  pose proof (Binary64.pow2_pos (53 - k) ltac:(lia)).
  destruct Hres as [[HR00 _]|(m & e'' & Hres & He'' & HRm)]; [nia|].
  rewrite Hres. unfold float_units60.
  replace (-60 <=? e'') with true by (symmetry; apply Z.leb_le; lia).
  change (cond_Zopp false ?x) with x. f_equal.
  replace (e'' + 60) with ((e'' - (e1 + -53 + s)) + (e1 + -53 + s + 60)) by lia.
  rewrite Binary64.pow2_add, Z.mul_assoc, <- HRm, HRv by lia.
  rewrite <- Z.mul_assoc, <- Binary64.pow2_add by lia.
  replace (53 - k + (e1 + -53 + s + 60)) with (e1 + 59) by lia.
  rewrite Hm1, <- Z.mul_assoc, <- Binary64.pow2_add by lia. do 2 f_equal. lia.
Qed.

(** ** The trace of [process] *)

(** After a successful read the trace starts with the three [Info] entries
    of lines 183-211. *)
Lemma process_prefix ev m img0 :
  readImageFile ev (inputFileName m) = inl img0 ->
  exists rest, process ev m =
    LogInfo "Image pixels"
      [("width", LInt (Dx (Bounds img0))); ("height", LInt (Dy (Bounds img0)))] ::
    LogInfo "Bead board used"
      [("width", LInt (calculateBeadBoardsNeeded (Dx (imageBoundsOf ev m img0))));
       ("height", LInt (calculateBeadBoardsNeeded (Dy (imageBoundsOf ev m img0))))] ::
    LogInfo "Bead board measurement in cm"
      [("width", LFloat (fmul (float64_of_int (Dx (imageBoundsOf ev m img0))) f_half));
       ("height", LFloat (fmul (float64_of_int (Dy (imageBoundsOf ev m img0))) f_half))] :: rest.
Proof.
  intros Hread. unfold process. rewrite Hread.
  destruct (noColorMatching m); [|destruct (processImageCall ev m img0) as [ws [err|]]];
    eexists; reflexivity.
Qed.

(** The measurement in centimetres logged by [process] is exactly half
    the width and height of the (resized) image, with no rounding, for
    dimensions [0 <= d < 2^52]. *)
Theorem process_measurement_exact (ev : env) (m : beadMachine) (img0 : image) :
  readImageFile ev (inputFileName m) = inl img0 ->
  0 <= Dx (imageBoundsOf ev m img0) < 2 ^ 52 ->
  0 <= Dy (imageBoundsOf ev m img0) < 2 ^ 52 ->
  exists fw fh,
    info_fields "Bead board measurement in cm" (process ev m) =
      Some [("width", LFloat fw); ("height", LFloat fh)] /\
    float_units60 fw = Some (Dx (imageBoundsOf ev m img0) * 2 ^ 59) /\
    float_units60 fh = Some (Dy (imageBoundsOf ev m img0) * 2 ^ 59).
Proof.
  intros Hread Hw Hh.
  destruct (process_prefix ev m img0 Hread) as [rest ->].
  eexists _, _. split; [reflexivity|].
  split; apply mul_half_units; done.
Qed.

Lemma process_measurement_exact_witness :
  let img := mkImage (rect 0 0 3 5) (fun _ _ => RGBA 1 2 3 255) in
  let m := newBeadMachine (runFlags false true 0 0 20) in
  (readImageFile (envOf img) (inputFileName m) = inl img /\
   0 <= Dx (imageBoundsOf (envOf img) m img) < 2 ^ 52 /\
   0 <= Dy (imageBoundsOf (envOf img) m img) < 2 ^ 52) /\
  exists fw fh,
    info_fields "Bead board measurement in cm" (process (envOf img) m) =
      Some [("width", LFloat fw); ("height", LFloat fh)] /\
    float_units60 fw = Some (3 * 2 ^ 59) /\ float_units60 fh = Some (5 * 2 ^ 59).
Proof.
  intros img m.
  assert (H : readImageFile (envOf img) (inputFileName m) = inl img /\
              0 <= Dx (imageBoundsOf (envOf img) m img) < 2 ^ 52 /\
              0 <= Dy (imageBoundsOf (envOf img) m img) < 2 ^ 52).
  { split; [reflexivity|]. vm_compute. split; split; congruence. }
  split; [exact H|]. destruct H as (H1 & H2 & H3).
  exact (process_measurement_exact (envOf img) m img H1 H2 H3).
Defined.



(** With [noColorMatching] the palette matching is never run: the trace
    does not depend on [processImage] nor on the timer, and no "Image
    processed" entry is logged. *)
Theorem noColorMatching_skips_processImage (ev : env) (m : beadMachine) p t :
  noColorMatching m = true ->
  process (with_processImage ev p t) m = process ev m /\
  info_fields "Image processed" (process ev m) = None.
Proof.
  intros Hnc. split.
  - unfold process. rewrite Hnc. reflexivity.
  - unfold process. destruct (readImageFile ev (inputFileName m)) as [img0|err];
      [|reflexivity].
    cbv zeta. rewrite Hnc. unfold writeOutput.
    destruct (resized m || beadStyle m), (os_Create ev (outputFileName m)); reflexivity.
Qed.

Lemma noColorMatching_skips_processImage_witness :
  let img := pixelImage 0 0 (RGBA 1 2 3 255) in
  let m := newBeadMachine (runFlags false true 0 0 20) in
  let p := fun (_ : beadMachine) (_ : rectangle) (_ : image) (_ : rgba_image) (_ : string) =>
             ([(0, 0, rgba_zero)], Some "palette") in
  noColorMatching m = true /\
  (process (with_processImage (envOf img) p 7) m = process (envOf img) m /\
   info_fields "Image processed" (process (envOf img) m) = None).
Proof.
  intros img m p.
  assert (H : noColorMatching m = true) by reflexivity.
  split; [exact H|].
  exact (noColorMatching_skips_processImage (envOf img) m p 7 H).
Defined.



(** ** The pixel pass without colour matching *)

(** With [noColorMatching], every point of the image bounds that lies in
    the output image holds [noMatchPixel] of the (filtered, resized) input
    pixel at the same point. *)
Theorem noColorMatching_output_pixel (ev : env) (m : beadMachine) (img0 : image)
    (out : rgba_image) (x y : Z) :
  noColorMatching m = true ->
  readImageFile ev (inputFileName m) = inl img0 ->
  encoded_image (process ev m) = Some out ->
  point_in x y (imageBoundsOf ev m img0) = true ->
  point_in x y (Rect out) = true ->
  RGBAAt out x y = noMatchPixel (At (resizedImage ev m img0) x y).
Proof.
  intros Hnc Hread Henc Hb Hout.
  destruct (encoded_image_process ev m out Henc) as (img1 & Hread' & Hrect & Hcopy).
  rewrite Hread in Hread'. injection Hread' as <-.
  unfold RGBAAt. rewrite Hout, (Hcopy Hnc). unfold copyPixels.
  apply Pix_copyRows_at.
  - simpl. rewrite <- Hrect. exact Hout.
  - unfold point_in, Dy in *.
    destruct (Z.leb_spec (X (Min (imageBoundsOf ev m img0))) x),
             (Z.ltb_spec x (X (Max (imageBoundsOf ev m img0)))),
             (Z.leb_spec (Y (Min (imageBoundsOf ev m img0))) y),
             (Z.ltb_spec y (Y (Max (imageBoundsOf ev m img0)))); simpl in Hb;
      try discriminate.
    rewrite Z2Nat.id by lia. lia.
  - unfold point_in in Hb.
    destruct (Z.leb_spec (X (Min (imageBoundsOf ev m img0))) x),
             (Z.ltb_spec x (X (Max (imageBoundsOf ev m img0)))),
             (Z.leb_spec (Y (Min (imageBoundsOf ev m img0))) y),
             (Z.ltb_spec y (Y (Max (imageBoundsOf ev m img0)))); simpl in Hb;
      try discriminate.
    lia.
Qed.

Lemma noColorMatching_output_pixel_witness :
  let img := mkImage (rect 0 0 2 2) (fun x y => RGBA (10 * x) (10 * y) 7 255) in
  let m := newBeadMachine (runFlags false true 0 0 20) in
  let out := copyPixels (rect 0 0 2 2) img (NewRGBA (rect 0 0 2 2)) in
  (noColorMatching m = true /\ readImageFile (envOf img) (inputFileName m) = inl img /\
   encoded_image (process (envOf img) m) = Some out /\
   point_in 1 1 (imageBoundsOf (envOf img) m img) = true /\ point_in 1 1 (Rect out) = true) /\
  RGBAAt out 1 1 = noMatchPixel (At (resizedImage (envOf img) m img) 1 1).
Proof.
  intros img m out.
  assert (H : noColorMatching m = true /\ readImageFile (envOf img) (inputFileName m) = inl img /\
              encoded_image (process (envOf img) m) = Some out /\
              point_in 1 1 (imageBoundsOf (envOf img) m img) = true /\
              point_in 1 1 (Rect out) = true)
    by (repeat split; reflexivity).
  split; [exact H|]. destruct H as (H1 & H2 & H3 & H4 & H5).
  exact (noColorMatching_output_pixel (envOf img) m img out 1 1 H1 H2 H3 H4 H5).
Defined.




(** ** Writing the output file *)

(** When the output file cannot be created, nothing is encoded, no file
    is created, and the trace ends with the error. *)
Theorem process_create_failure (ev : env) (m : beadMachine) (img0 : image) (err : string) :
  readImageFile ev (inputFileName m) = inl img0 ->
  (noColorMatching m = true \/ snd (processImageCall ev m img0) = None) ->
  os_Create ev (outputFileName m) = Some err ->
  encode_count (process ev m) = 0%nat /\ creates_file (process ev m) = false /\
  last (process ev m) = Some (LogError "Opening output image file failed" err).
Proof.
  intros Hread Hok Hcr. unfold process. rewrite Hread. cbv zeta.
  unfold writeOutput. rewrite Hcr.
  destruct (noColorMatching m) eqn:Hnc.
  - destruct (resized m || beadStyle m); auto.
  - destruct Hok as [Hok|Hok]; [discriminate|].
    destruct (processImageCall ev m img0) as [ws res]. simpl in Hok. subst res.
    destruct (resized m || beadStyle m); auto.
Qed.

Lemma process_create_failure_witness :
  let img := pixelImage 0 0 (RGBA 1 2 3 255) in
  let ev := {| readImageFile := fun _ => inl img; applyFilters := fun _ i => i;
               imaging_Resize := resizeTo; processImage := fun _ _ _ _ _ => ([], None);
               elapsedTime := 0; os_Create := fun _ => Some "permission denied" |} in
  let m := newBeadMachine (runFlags false false 0 0 20) in
  (readImageFile ev (inputFileName m) = inl img /\
   (noColorMatching m = true \/ snd (processImageCall ev m img) = None) /\
   os_Create ev (outputFileName m) = Some "permission denied") /\
  (encode_count (process ev m) = 0%nat /\ creates_file (process ev m) = false /\
   last (process ev m) = Some (LogError "Opening output image file failed" "permission denied")).
Proof.
  intros img ev m.
  assert (H : readImageFile ev (inputFileName m) = inl img /\
              (noColorMatching m = true \/ snd (processImageCall ev m img) = None) /\
              os_Create ev (outputFileName m) = Some "permission denied")
    by (split; [reflexivity|split; [right; reflexivity|reflexivity]]).
  split; [exact H|]. destruct H as (H1 & H2 & H3).
  exact (process_create_failure ev m img "permission denied" H1 H2 H3).
Defined.

(** When the output file opens, [process] ends by creating it, encoding
    one image into it and closing it (the deferred [Close] runs after
    [png.Encode]); nothing before creates a file or encodes an image. *)
Theorem process_create_success (ev : env) (m : beadMachine) (img0 : image) :
  readImageFile ev (inputFileName m) = inl img0 ->
  (noColorMatching m = true \/ snd (processImageCall ev m img0) = None) ->
  os_Create ev (outputFileName m) = None ->
  exists pre out,
    process ev m = pre ++ [CreateFile (outputFileName m); EncodePNG (outputFileName m) out;
                           CloseFile (outputFileName m)] /\
    creates_file pre = false /\ encode_count pre = 0%nat.
Proof.
  intros Hread Hok Hcr. unfold process. rewrite Hread. cbv zeta.
  unfold writeOutput. rewrite Hcr.
  destruct (noColorMatching m) eqn:Hnc.
  - destruct (resized m || beadStyle m); eexists _, _; (split; [reflexivity|]); auto.
  - destruct Hok as [Hok|Hok]; [discriminate|].
    destruct (processImageCall ev m img0) as [ws res]. simpl in Hok. subst res.
    destruct (resized m || beadStyle m); eexists _, _;
      (split; [rewrite (app_assoc _ [_]); reflexivity|]); auto.
Qed.

Lemma process_create_success_witness :
  let img := pixelImage 0 0 (RGBA 1 2 3 255) in
  let m := newBeadMachine (runFlags false false 0 0 20) in
  (readImageFile (envOf img) (inputFileName m) = inl img /\
   (noColorMatching m = true \/ snd (processImageCall (envOf img) m img) = None) /\
   os_Create (envOf img) (outputFileName m) = None) /\
  exists pre out,
    process (envOf img) m = pre ++ [CreateFile "out.png"; EncodePNG "out.png" out;
                                    CloseFile "out.png"] /\
    creates_file pre = false /\ encode_count pre = 0%nat.
Proof.
  intros img m.
  assert (H : readImageFile (envOf img) (inputFileName m) = inl img /\
              (noColorMatching m = true \/ snd (processImageCall (envOf img) m img) = None) /\
              os_Create (envOf img) (outputFileName m) = None)
    by (split; [reflexivity|split; [right; reflexivity|reflexivity]]).
  split; [exact H|]. destruct H as (H1 & H2 & H3).
  exact (process_create_success (envOf img) m img H1 H2 H3).
Defined.

(** ** [startBeadMachine] *)



(** ** The bead usage table *)

Lemma dom_countUsage_names (names : list string) :
  dom (countUsage names) = list_to_set names.
Proof.
  induction names as [|x l IH] using rev_ind; [reflexivity|].
  rewrite countUsage_snoc. unfold incrUsage.
  rewrite dom_insert_L, list_to_set_app_L, IH. simpl. set_solver.
Qed.

(** The colours of the table are exactly the names received: a name has
    an entry if and only if it was received at least once. *)
Theorem countUsage_dom (names : list string) :
  dom (countUsage names) = list_to_set names.
Proof. apply dom_countUsage_names. Qed.

(** The count logged as "Bead colors" (line 281) is the number of
    distinct colour names sent on the channel. *)
Theorem usage_report_count_distinct (tr : list usage_event) (s s' : usage_state) (n : Z) :
  usage_run usage_init tr s -> usage_step s (EvReportCount n) s' ->
  n = Z.of_nat (size (list_to_set (sends_of tr) : gset string)).
Proof.
  intros Hrun Hstep. pose proof (usage_inv_run tr s Hrun) as Hinv.
  inversion Hstep; subst. unfold usage_inv in Hinv. simpl in Hinv.
  destruct Hinv as (_ & _ & _ & Hc & _).
  rewrite Hc, <- size_dom, dom_countUsage_names. reflexivity.
Qed.

Lemma usage_report_count_distinct_witness :
  let t := countUsage ["Red"; "Red"] in
  let tr := [EvSend "Red"; EvSend "Red"; EvClose; EvRecv "Red"; EvRecv "Red"; EvRangeEnd] in
  let s := mkUsageState UsageReportCount t [] true in
  let s' := mkUsageState (UsageReportEach (map_to_list t)) t [] true in
  (usage_run usage_init tr s /\ usage_step s (EvReportCount 1) s') /\
  1 = Z.of_nat (size (list_to_set (sends_of tr) : gset string)).
Proof.
  intros t tr s s'.
  assert (Hrun : usage_run usage_init tr s).
  { change tr with (((((([] ++ [EvSend "Red"]) ++ [EvSend "Red"]) ++ [EvClose]) ++
                      [EvRecv "Red"]) ++ [EvRecv "Red"]) ++ [EvRangeEnd]).
    eapply RunStep; [|apply StepRangeEnd].
    eapply RunStep; [|apply StepRecv].
    eapply RunStep; [|apply StepRecv].
    eapply RunStep; [|apply StepClose].
    eapply RunStep; [|apply (StepSend UsageLoop ∅ ["Red"] "Red")].
    eapply RunStep; [apply RunNil|apply (StepSend UsageLoop ∅ nil "Red")]. }
  assert (Hstep : usage_step s (EvReportCount 1) s').
  { change 1 with (Z.of_nat (size t)). apply StepReportCount. reflexivity. }
  split; [split; assumption|].
  exact (usage_report_count_distinct tr s s' 1 Hrun Hstep).
Defined.

Lemma insert_delete_same (t : gmap string Z) k v : <[k:=v]> (delete k t) = <[k:=v]> t.
Proof.
  apply map_eq. intros j. destruct (decide (k = j)) as [->|Hne].
  - by rewrite !lookup_insert_eq.
  - rewrite !lookup_insert_ne, lookup_delete_ne by done. done.
Qed.

Lemma usage_total_insert (t : gmap string Z) k v :
  usage_total (<[k:=v]> t) = v + usage_total (delete k t).
Proof.
  unfold usage_total. rewrite <- insert_delete_same.
  rewrite map_fold_insert_L; [done| intros; lia |]. apply lookup_delete_eq.
Qed.

Lemma usage_total_delete (t : gmap string Z) k v :
  t !! k = Some v -> usage_total t = v + usage_total (delete k t).
Proof.
  intros Hk. rewrite <- usage_total_insert. f_equal.
  apply map_eq. intros j. destruct (decide (k = j)) as [->|Hne].
  - by rewrite lookup_insert_eq.
  - by rewrite lookup_insert_ne.
Qed.

Lemma countUsage_total_aux (names : list string) :
  Z.of_nat (length names) < 2 ^ 63 ->
  usage_total (countUsage names) = Z.of_nat (length names) /\
  map_Forall (fun _ c => 1 <= c <= Z.of_nat (length names)) (countUsage names).
Proof.
  induction names as [|x l IH] using rev_ind; intros Hlen.
  - split; [reflexivity|]. apply map_Forall_empty.
  - rewrite length_app in Hlen |- *. simpl in Hlen |- *.
    destruct (IH ltac:(lia)) as [Htot Hall].
    rewrite countUsage_snoc. unfold incrUsage.
    set (t := countUsage l) in *.
    assert (Hv : forall v, t !! x = Some v -> 1 <= v <= Z.of_nat (length l)).
    { intros v Hx. exact (Hall x v Hx). }
    split.
    + rewrite usage_total_insert.
      destruct (t !! x) as [v|] eqn:Hx; simpl.
      * rewrite (usage_total_delete t x v Hx) in Htot. specialize (Hv v eq_refl).
        rewrite wrap64_small by lia. lia.
      * replace (delete x t) with t.
        -- rewrite wrap64_small by lia. lia.
        -- apply map_eq. intros j. destruct (decide (x = j)) as [->|Hne].
           ++ by rewrite lookup_delete_eq.
           ++ by rewrite lookup_delete_ne.
    + intros k c Hk. destruct (decide (x = k)) as [->|Hne].
      * rewrite lookup_insert_eq in Hk. injection Hk as <-.
        destruct (t !! k) as [v|] eqn:Hx; simpl.
        -- specialize (Hv v eq_refl). rewrite wrap64_small; lia.
        -- rewrite wrap64_small; lia.
      * rewrite lookup_insert_ne in Hk by done. specialize (Hall k c Hk). simpl in Hall. lia.
Qed.

(** For fewer than [2^63] names the counts of the table add up to the
    number of names received, and every colour in it has a count of at
    least 1. *)
Theorem countUsage_total (names : list string) :
  Z.of_nat (length names) < 2 ^ 63 ->
  usage_total (countUsage names) = Z.of_nat (length names) /\
  map_Forall (fun _ c => 1 <= c) (countUsage names).
Proof.
  intros Hlen. destruct (countUsage_total_aux names Hlen) as [Htot Hall].
  split; [done|]. intros k c Hk. specialize (Hall k c Hk). simpl in Hall. lia.
Qed.

Lemma countUsage_total_witness :
  Z.of_nat (length ["red"; "blue"; "red"]) < 2 ^ 63 /\
  (usage_total (countUsage ["red"; "blue"; "red"]) = Z.of_nat (length ["red"; "blue"; "red"]) /\
   map_Forall (fun _ c => 1 <= c) (countUsage ["red"; "blue"; "red"])).
Proof.
  assert (H : Z.of_nat (length ["red"; "blue"; "red"]) < 2 ^ 63) by (simpl; lia).
  split; [exact H|]. exact (countUsage_total _ H).
Defined.
